(** * pmoe-uigf-converter: the conversion pipeline and the rank-override tool

    A shallow embedding of [pm2uigf-pipeline.py] and [rank-mapping-tool.py],
    followed by the properties of the repository's specification that can be
    stated over it.

    Conventions of the embedding.
    - A Python [str] is a Rocq [string] holding its UTF-8 bytes.  Equality and
      the lexicographic order agree with Python's (UTF-8 preserves code point
      order).  The text functions ([strip], [lower], [split], the [\s]
      class, [capitalize], [isdigit]) are exact on ASCII text; bytes above
      127 are left untouched and are never white space, letters or digits,
      where Python knows white space, cased letters and digits beyond
      ASCII.  A statement whose hypothesis or conclusion is decided by one
      of these functions on a text the caller supplies is stated for text
      that [isascii] accepts.
    - A JSON scalar is a [pyval]: [null], an integer or a string.  Floats,
      booleans and containers in scalar positions are not part of the model.
    - A JSON object whose members are scalars is a [gmap string pyval];
      a dictionary built by the program is a [gmap] over its key type.
    - A function that can raise returns an [option]; [None] is the
      exception escaping the function. *)

From Stdlib Require Import ZArith Ascii String List Sorted Permutation Lia.
From stdpp Require Import base option list gmap strings pretty sorting.

Set Warnings "-clear-no-such-hyp".

(** ** Python values *)

Module Py.

Inductive pyval : Type :=
| VNone
| VInt (z : Z)
| VStr (s : string).

Definition pyval_to_sum (v : pyval) : unit + (Z + string) :=
  match v with
  | VNone => inl tt
  | VInt z => inr (inl z)
  | VStr s => inr (inr s)
  end.

Definition pyval_of_sum (x : unit + (Z + string)) : pyval :=
  match x with
  | inl _ => VNone
  | inr (inl z) => VInt z
  | inr (inr s) => VStr s
  end.

Lemma pyval_of_to_sum v : pyval_of_sum (pyval_to_sum v) = v.
Proof. by destruct v. Qed.

Global Instance pyval_eq_dec : EqDecision pyval.
Proof. solve_decision. Defined.

Global Instance pyval_countable : Countable pyval :=
  inj_countable' pyval_to_sum pyval_of_sum pyval_of_to_sum.

(** [bool(v)]: the truth value Python gives a scalar. *)
Definition truthy (v : pyval) : bool :=
  match v with
  | VNone => false
  | VInt z => negb (z =? 0)%Z
  | VStr s => negb (String.eqb s "")
  end.

(** [a or b] *)
Definition py_or (a b : pyval) : pyval := if truthy a then a else b.

(** [str(v)] *)
Definition py_str (v : pyval) : string :=
  match v with
  | VNone => "None"
  | VInt z => pretty z
  | VStr s => s
  end.

(** [d.get(k)], [d.get(k, dflt)] and [k in d] on a dictionary. *)
Definition get `{Countable K} (d : gmap K pyval) (k : K) : pyval :=
  default VNone (d !! k).

Definition get_or `{Countable K} (d : gmap K pyval) (k : K) (dflt : pyval) : pyval :=
  default dflt (d !! k).

Definition has_key `{Countable K} {V} (d : gmap K V) (k : K) : bool :=
  bool_decide (is_Some (d !! k)).

(** ** Text

    The classes and case maps below are Python's on ASCII.  Beyond ASCII
    Python has further white space (U+0085, U+00A0, U+3000, ...), cased
    letters and digits, which these definitions leave alone. *)

(** [c.isspace()] for an ASCII character. *)
Definition is_space (c : ascii) : bool :=
  let n := nat_of_ascii c in
  ((9 <=? n) && (n <=? 13)) || ((28 <=? n) && (n <=? 32)).

Definition is_digit (c : ascii) : bool :=
  let n := nat_of_ascii c in (48 <=? n) && (n <=? 57).

Definition lower_char (c : ascii) : ascii :=
  let n := nat_of_ascii c in
  if (65 <=? n) && (n <=? 90) then ascii_of_nat (n + 32) else c.

Definition upper_char (c : ascii) : ascii :=
  let n := nat_of_ascii c in
  if (97 <=? n) && (n <=? 122) then ascii_of_nat (n - 32) else c.

Fixpoint str_map (f : ascii → ascii) (s : string) : string :=
  match s with
  | EmptyString => EmptyString
  | String c s' => String (f c) (str_map f s')
  end.

(** [s.lower()] *)
Definition lower (s : string) : string := str_map lower_char s.

(** [s.replace("_", " ")] *)
Definition replace_underscore (s : string) : string :=
  str_map (λ c, if Ascii.eqb c "_" then " "%char else c) s.

(** [re.sub(r"\s+", " ", s)]: every maximal run of white space becomes one
    blank.  [in_run] tells that the previous character was white space. *)
Fixpoint collapse_ws (in_run : bool) (s : string) : string :=
  match s with
  | EmptyString => EmptyString
  | String c s' =>
      if is_space c
      then if in_run then collapse_ws true s' else String " " (collapse_ws true s')
      else String c (collapse_ws false s')
  end.

Fixpoint lstrip (s : string) : string :=
  match s with
  | EmptyString => EmptyString
  | String c s' => if is_space c then lstrip s' else s
  end.

Fixpoint rstrip (s : string) : string :=
  match s with
  | EmptyString => EmptyString
  | String c s' =>
      let r := rstrip s' in
      if is_space c && String.eqb r "" then EmptyString else String c r
  end.

(** [s.strip()] *)
Definition strip (s : string) : string := rstrip (lstrip s).

(** [s.split()]: the maximal runs of characters that are not white space.
    [cur] is the word being read. *)
Fixpoint split_go (cur : string) (s : string) : list string :=
  match s with
  | EmptyString => if String.eqb cur "" then [] else [cur]
  | String c s' =>
      if is_space c
      then if String.eqb cur "" then split_go "" s' else cur :: split_go "" s'
      else split_go (cur +:+ String c EmptyString) s'
  end.

Definition split (s : string) : list string := split_go "" s.

(** [w.capitalize()] *)
Definition capitalize (w : string) : string :=
  match w with
  | EmptyString => EmptyString
  | String c r => String (upper_char c) (lower r)
  end.

(** [sub in s] *)
Fixpoint contains (sub s : string) : bool :=
  String.prefix sub s ||
  match s with
  | EmptyString => false
  | String _ s' => contains sub s'
  end.

(** [s.startswith(p)] *)
Definition startswith (s p : string) : bool := String.prefix p s.

Fixpoint all_digits (s : string) : bool :=
  match s with
  | EmptyString => true
  | String c s' => is_digit c && all_digits s'
  end.

(** [s.isdigit()] for ASCII text. *)
Definition isdigit (s : string) : bool :=
  negb (String.eqb s "") && all_digits s.

(** [int(s)] for a string of decimal digits. *)
Fixpoint int_of_digits (acc : Z) (s : string) : Z :=
  match s with
  | EmptyString => acc
  | String c s' => int_of_digits (10 * acc + Z.of_nat (nat_of_ascii c - 48)) s'
  end.

Definition py_int (s : string) : Z := int_of_digits 0 s.

(** [s.isascii()]: every byte is below 128. *)
Fixpoint isascii (s : string) : bool :=
  match s with
  | EmptyString => true
  | String c s' => (nat_of_ascii c <? 128) && isascii s'
  end.

(** ** Ordering and [list.sort] *)

(** [a < b] on scalars; [None] is the [TypeError] of an unordered pair. *)
Definition py_lt (a b : pyval) : option bool :=
  match a, b with
  | VInt x, VInt y => Some (x <? y)%Z
  | VStr x, VStr y => Some (String.ltb x y)
  | _, _ => None
  end.

(** [(a1, a2) < (b1, b2)] on pairs: the first components that differ decide. *)
Definition tuple_lt (a b : pyval * pyval) : option bool :=
  if decide (a.1 = b.1)
  then if decide (a.2 = b.2) then Some false else py_lt a.2 b.2
  else py_lt a.1 b.1.

Section sort.
Context {K A : Type} (lt : K → K → option bool).

(** Insert [x] in front of the first element that is not smaller than
    it, so that equal keys keep the order of the input (the sort is stable,
    as Python's is). *)
Fixpoint insert_by (x : K * A) (l : list (K * A)) : option (list (K * A)) :=
  match l with
  | [] => Some [x]
  | y :: l' =>
      b ← lt y.1 x.1;
      if b : bool then r ← insert_by x l'; Some (y :: r) else Some (x :: l)
  end.

Definition sort_keyed (l : list (K * A)) : option (list (K * A)) :=
  foldr (λ x acc, acc ≫= insert_by x) (Some []) l.

(** [l.sort(key=key)]: the keys are computed first ([None] when a key
    raises), then the list is ordered by [<] on the keys. *)
Definition sort_by (key : A → option K) (l : list A) : option (list A) :=
  ks ← mapM (λ x, k ← key x; Some (k, x)) l;
  r ← sort_keyed ks;
  Some (r.*2).

End sort.

End Py.

Import Py.

(** ** JSON documents

    An item of the export, of the override table or of a record list is a JSON
    object with scalar members. *)
Abbreviation obj := (gmap string pyval).

(** A member of a fetched document: a scalar or an object. *)
Inductive blob : Type :=
| BVal (v : pyval)
| BObj (o : obj).

(** A fetched document: an object (its [items()], the keys pairwise
    distinct), an array or a scalar. *)
Inductive doc : Type :=
| DObj (items : list (string * blob))
| DArr (elems : list blob)
| DVal (v : pyval).

(** [{}], what [fetch_json] gives for a source it cannot read. *)
Definition empty_doc : doc := DObj [].

Fixpoint assoc {V} (k : string) (l : list (string * V)) : option V :=
  match l with
  | [] => None
  | (k', v) :: l' => if decide (k' = k) then Some v else assoc k l'
  end.

(** * pm2uigf-pipeline.py *)

Definition API_URLS : list (string * string) :=
  [ ("weapons_en", "https://raw.githubusercontent.com/MadeBaruna/paimon-moe/main/src/data/weapons/en.json");
    ("weapons_ja", "https://raw.githubusercontent.com/MadeBaruna/paimon-moe/main/src/data/weapons/ja.json");
    ("characters_en", "https://raw.githubusercontent.com/MadeBaruna/paimon-moe/main/src/data/furnishing/en.json");
    ("characters_ja", "https://raw.githubusercontent.com/MadeBaruna/paimon-moe/main/src/data/furnishing/ja.json");
    ("uigf_dict_en", "https://api.uigf.org/dict/genshin/en.json");
    ("uigf_dict_ja", "https://api.uigf.org/dict/genshin/jp.json");
    ("genshin_words", "https://dataset.genshin-dictionary.com/words.json") ].

Definition LANG_MAP : gmap string string :=
  {[ "ja" := "ja-jp"; "en" := "en-us" ]}.

Definition GACHA_BANNER_TYPES : list (string * Z) :=
  [ ("wish-counter-beginners", 100%Z);
    ("wish-counter-character-event", 301%Z);
    ("wish-counter-weapon-event", 302%Z);
    ("wish-counter-standard", 200%Z);
    ("wish-counter-chronicled", 500%Z) ].

(** [normalize_en_key]: a falsy argument gives [""]; [replace] on a
    number raises. *)
Definition normalize_en_key (s : pyval) : option string :=
  if negb (truthy s) then Some ""
  else match s with
       | VStr x => Some (lower (strip (collapse_ws false (replace_underscore x))))
       | _ => None
       end.

Definition english_from_pmoe_id (pmoe_id : pyval) : option string :=
  norm ← normalize_en_key pmoe_id;
  Some (if truthy (VStr norm)
        then String.concat " " (capitalize <$> split norm)
        else "").

(** The fetch of one URL is the environment of a run: [fetch_json] maps a
    URL to the document read there, [empty_doc] after a failure. *)
Definition fetch_apis_parallel (fetch_json : string → doc) : gmap string doc :=
  foldl (λ results '(key, url), <[key := fetch_json url]> results) ∅ API_URLS.

(** One source item of [build_pmoe_dict]: the two guarded assignments. *)
Definition merge_info (lang : string) (info entry : obj) : obj :=
  let name_key := "name_" +:+ lang in
  let entry :=
    match info !! "name" with
    | Some n => if has_key entry name_key then entry else <[name_key := n]> entry
    | None => entry
    end in
  match info !! "rarity" with
  | Some r => if has_key entry "rarity" then entry else <["rarity" := r]> entry
  | None => entry
  end.

Definition add_source_item (lang : string) (pmoe : gmap string obj)
    (it : string * blob) : gmap string obj :=
  match it.2 with
  | BObj info => <[it.1 := merge_info lang info (default ∅ (pmoe !! it.1))]> pmoe
  | BVal _ => pmoe
  end.

(** [data.items()] *)
Definition doc_items (d : doc) : option (list (string * blob)) :=
  match d with
  | DObj items => Some items
  | _ => None
  end.

Definition add_source (api_results : gmap string doc)
    (acc : option (gmap string obj)) (key : string) : option (gmap string obj) :=
  pmoe ← acc;
  let lang := if contains "en" key then "en" else "jp" in
  items ← doc_items (default empty_doc (api_results !! key));
  Some (foldl (add_source_item lang) pmoe items).

Definition pmoe_sources : list string :=
  ["weapons_en"; "weapons_ja"; "characters_en"; "characters_ja"].

Definition build_pmoe_dict (api_results : gmap string doc) : option (gmap string obj) :=
  foldl (add_source api_results) (Some ∅) pmoe_sources.

(** The three translation tables under construction. *)
Record gd_tables : Type := GdTables {
  t_en_to_ja : gmap pyval pyval;
  t_en_to_ja_norm : gmap pyval pyval;
  t_zh_to_ja : gmap pyval pyval
}.

Definition add_word (acc : option gd_tables) (w : blob) : option gd_tables :=
  maps ← acc;
  match w with
  | BVal _ => Some maps
  | BObj w =>
      match w !! "ja" with
      | None => Some maps
      | Some ja =>
          maps ←
            match w !! "en" with
            | Some en =>
                norm_key ← normalize_en_key en;
                let e := <[en := ja]> (t_en_to_ja maps) in
                let n := if truthy (VStr norm_key)
                         then <[VStr norm_key := ja]> (t_en_to_ja_norm maps)
                         else t_en_to_ja_norm maps in
                Some (GdTables e n (t_zh_to_ja maps))
            | None => Some maps
            end;
          Some match w !! "zhCN" with
               | Some zh => GdTables (t_en_to_ja maps) (t_en_to_ja_norm maps)
                              (<[zh := ja]> (t_zh_to_ja maps))
               | None => maps
               end
      end
  end.

Definition gd_maps_of (t : gd_tables) : gmap string (gmap pyval pyval) :=
  {[ "en_to_ja" := t_en_to_ja t;
     "en_to_ja_norm" := t_en_to_ja_norm t;
     "zh_to_ja" := t_zh_to_ja t ]}.

Definition build_genshin_words_maps (gd_data : doc)
    : option (gmap string (gmap pyval pyval)) :=
  match gd_data with
  | DArr ws => gd_maps_of <$> foldl add_word (Some (GdTables ∅ ∅ ∅)) ws
  | _ => Some (gd_maps_of (GdTables ∅ ∅ ∅))
  end.

Definition get_item_names_from_pmoe_id (pmoe_id : string)
    (pmoe_dict : gmap string obj) : pyval * pyval :=
  let data := default ∅ (pmoe_dict !! pmoe_id) in
  (py_or (get data "name_en") (get_or data "name" (VStr "")),
   get_or data "name_jp" (VStr "")).

Definition get_rank_from_pmoe_id (pmoe_id : string)
    (pmoe_dict : gmap string obj) : pyval :=
  let data := default ∅ (pmoe_dict !! pmoe_id) in
  match get data "rarity" with
  | VInt z => VStr (py_str (VInt z))
  | VStr s => VStr s
  | VNone => VNone
  end.

(** The loop of [resolve_item_name] over the candidate texts; [jp] is the
    value [item_name_jp] holds when the iteration starts. *)
Fixpoint translate_loop (en_to_ja en_to_ja_norm : gmap pyval pyval)
    (cands : list pyval) (jp : pyval) : option pyval :=
  match cands with
  | [] => Some jp
  | en_text :: rest =>
      if truthy en_text then
        let exact := get en_to_ja en_text in
        if truthy exact then Some exact
        else
          k ← normalize_en_key en_text;
          let jp := get en_to_ja_norm (VStr k) in
          if truthy jp then Some jp
          else translate_loop en_to_ja en_to_ja_norm rest jp
      else translate_loop en_to_ja en_to_ja_norm rest jp
  end.

(** [v.lower()] on a scalar: only a string has the method. *)
Definition py_lower (v : pyval) : option string :=
  match v with
  | VStr s => Some (lower s)
  | _ => None
  end.

Definition resolve_item_name (pmoe_id raw_name : string)
    (pmoe_dict : gmap string obj) (gd_maps : gmap string (gmap pyval pyval))
    (locale : pyval) : option (pyval * pyval) :=
  let '(item_name_en, item_name_jp) := get_item_names_from_pmoe_id pmoe_id pmoe_dict in
  derived_en ← english_from_pmoe_id (VStr pmoe_id);
  let en_to_ja := default ∅ (gd_maps !! "en_to_ja") in
  let en_to_ja_norm := default ∅ (gd_maps !! "en_to_ja_norm") in
  let zh_to_ja := default ∅ (gd_maps !! "zh_to_ja") in
  let item_name_en :=
    if negb (truthy item_name_en)
    then py_or (VStr derived_en) (VStr raw_name)
    else item_name_en in
  item_name_jp ←
    (if negb (truthy item_name_jp) then
       jp ← translate_loop en_to_ja en_to_ja_norm
               [item_name_en; VStr derived_en; VStr raw_name] item_name_jp;
       Some (if negb (truthy jp) && truthy (VStr raw_name)
             then get zh_to_ja (VStr raw_name)
             else jp)
     else Some item_name_jp);
  if negb (truthy item_name_en) && negb (truthy item_name_jp) then
    l ← py_lower (py_or locale (VStr ""));
    Some (if startswith l "ja"
          then (item_name_en, VStr raw_name)
          else (VStr raw_name, item_name_jp))
  else Some (item_name_en, item_name_jp).

(** One guarded assignment of [apply_rank_override]. *)
Definition override_field (override : obj) (key : string) (current : pyval) : pyval :=
  let o := get override key in
  if truthy o then VStr (strip (py_str o)) else current.

Definition apply_rank_override (pmoe_id : string)
    (item_name_en item_name_jp rank_type : pyval)
    (override_map : gmap string obj) : pyval * pyval * pyval :=
  match override_map !! pmoe_id with
  | None => (item_name_en, item_name_jp, rank_type)
  | Some override =>
      if decide (override = ∅) then (item_name_en, item_name_jp, rank_type)
      else (override_field override "name_en" item_name_en,
            override_field override "name_jp" item_name_jp,
            override_field override "rank_type" rank_type)
  end.

Definition infer_lang_from_locale (locale : pyval) : option string :=
  l ← py_lower (py_or locale (VStr "en"));
  Some (default "en-us" (LANG_MAP !! l)).

Definition infer_timezone_from_uid (uid : string) : Z :=
  match uid with
  | String first _ =>
      if Ascii.eqb first "6" then (-5)%Z
      else if Ascii.eqb first "7" then 1%Z
      else 8%Z
  | EmptyString => 8%Z
  end.

Definition to_uigf_gacha_type (gacha_type : string) : string :=
  if decide (gacha_type = "400") then "301" else gacha_type.

(** The export to convert.  [scalars] holds the scalar members of the
    top-level object; [counters] maps a banner key whose member is an
    object to the list under its ["pulls"] member ([[]] when that member
    is absent or falsy). *)
Record paimon_export : Type := PaimonExport {
  scalars : obj;
  counters : gmap string (list obj)
}.

(** A version 3 document: its ["info"] object and its ["list"]. *)
Record uigf_v3_doc : Type := UigfV3 {
  v3_info : obj;
  v3_list : list obj
}.

(** A version 4.1 document: its ["info"] object and the members of the
    one element of ["hk4e"]. *)
Record uigf_v41_doc : Type := UigfV41 {
  v41_info : obj;
  v41_uid : pyval;
  v41_timezone : pyval;
  v41_lang : pyval;
  v41_list : list obj
}.

Section pipeline.

(** Library functions that are not modelled:
    [strptime_ok s] tells that [datetime.strptime(s, "%Y-%m-%d %H:%M:%S")]
    returns; [dict_repr o] is [str(o)] for a dictionary [o]. *)
Variable strptime_ok : string → bool.
Variable dict_repr : obj → string.

(** [parse_time(s)] is truthy *)
Definition parse_time (time_str : string) : bool := strptime_ok time_str.

Definition blob_str (b : blob) : string :=
  match b with
  | BVal v => py_str v
  | BObj o => dict_repr o
  end.

(** [uigf_dict.get(name, 0)]: only a string can be a key of a JSON object. *)
Definition doc_get (d : doc) (name : pyval) (dflt : blob) : option blob :=
  match d with
  | DObj items =>
      Some (default dflt match name with
                         | VStr s => assoc s items
                         | _ => None
                         end)
  | _ => None
  end.

Definition get_item_id_from_name (name : pyval) (uigf_dict : doc) : option string :=
  blob_str <$> doc_get uigf_dict name (BVal (VInt 0)).

(** [build_uigf_record]; the result is [None] where the source returns
    [None]. *)
Definition build_uigf_record (pull : obj) (gacha_type pmoe_id : string)
    (item_name_en item_name_jp : pyval) (item_id : string) (rank_type : pyval)
    (rec_id lang : string) : option obj :=
  let time_str := py_str (get_or pull "time" (VStr "")) in
  if negb (truthy (VStr time_str)) || negb (parse_time time_str) then None
  else
    let display_name :=
      if decide (lang = "ja-jp") then item_name_jp
      else py_or item_name_en item_name_jp in
    let entry : obj :=
      {[ "uigf_gacha_type" := VStr (to_uigf_gacha_type gacha_type);
         "gacha_type" := VStr gacha_type;
         "item_id" := VStr item_id;
         "time" := VStr time_str;
         "id" := VStr rec_id;
         "count" := VStr "1";
         "name" := py_or display_name (VStr (py_str (get_or pull "name" (VStr "")))) ]} in
    let p_type := lower (py_str (get_or pull "type" (VStr ""))) in
    let entry :=
      if bool_decide (p_type = "weapon") || bool_decide (p_type = "character") then
        if decide (lower lang = "ja-jp")
        then <["item_type" := VStr (if decide (p_type = "weapon")
                                    then "武器" else "キャラクター")]> entry
        else <["item_type" := VStr (capitalize p_type)]> entry
      else entry in
    Some (if truthy rank_type then <["rank_type" := rank_type]> entry else entry).

(** The variables the loop of [paimon_to_uigf_v3] updates. *)
Record loop_state : Type := LoopState {
  uigf_list : list obj;
  missing_rank : gmap string obj;
  synth_id : Z
}.

(** The body of the loop over the pulls of one banner. *)
Definition process_pull (pmoe_dict : gmap string obj) (uigf_dict : doc)
    (gd_maps : gmap string (gmap pyval pyval)) (locale : pyval) (lang : string)
    (rank_override_map : gmap string obj) (gacha_type_int : Z)
    (acc : option loop_state) (p : obj) : option loop_state :=
  st ← acc;
  let pmoe_id := py_str (get_or p "id" (VStr "")) in
  let raw_name := py_str (get_or p "name" (VStr "")) in
  let gacha_type := py_str (VInt gacha_type_int) in
  '(item_name_en, item_name_jp) ←
    resolve_item_name pmoe_id raw_name pmoe_dict gd_maps locale;
  item_id ← get_item_id_from_name item_name_en uigf_dict;
  item_id ←
    (if bool_decide (item_id = "0") && truthy (VStr raw_name)
     then get_item_id_from_name (VStr raw_name) uigf_dict
     else Some item_id);
  let rank_type := get_rank_from_pmoe_id pmoe_id pmoe_dict in
  let '(item_name_en, item_name_jp, rank_type) :=
    apply_rank_override pmoe_id item_name_en item_name_jp rank_type rank_override_map in
  let synth_id := (synth_id st + 1)%Z in
  let rec_id := py_str (VInt synth_id) in
  let entry := build_uigf_record p gacha_type pmoe_id item_name_en item_name_jp
                 item_id rank_type rec_id lang in
  let uigf_list :=
    match entry with
    | Some e => uigf_list st ++ [e]
    | None => uigf_list st
    end in
  let missing_rank :=
    if negb (truthy rank_type)
    then <[pmoe_id := {[ "name_en" := item_name_en;
                         "name_jp" := item_name_jp;
                         "gacha_type" := VStr gacha_type ]}]> (missing_rank st)
    else missing_rank st in
  Some (LoopState uigf_list missing_rank synth_id).

(** The body of the loop over [GACHA_BANNER_TYPES]. *)
Definition process_banner (paimon_data : paimon_export)
    (pmoe_dict : gmap string obj) (uigf_dict : doc)
    (gd_maps : gmap string (gmap pyval pyval)) (locale : pyval) (lang : string)
    (rank_override_map : gmap string obj)
    (acc : option loop_state) (banner : string * Z) : option loop_state :=
  match counters paimon_data !! banner.1 with
  | None => acc
  | Some pulls =>
      foldl (process_pull pmoe_dict uigf_dict gd_maps locale lang
               rank_override_map banner.2) acc pulls
  end.

(** The key of the two sorts: [(e["time"], e["id"])]. *)
Definition sort_key (e : obj) : option (pyval * pyval) :=
  t ← e !! "time"; i ← e !! "id"; Some (t, i).

(** [paimon_to_uigf_v3] up to the end of its loop: the account
    identifier, the language tag and the state of the loop, whose list holds
    the records in the order they were emitted. *)
Definition run_pulls (fetch_json : string → doc) (now2_ts : Z)
    (paimon_data : paimon_export) (rank_override_map : gmap string obj)
    : option (string * string * loop_state) :=
  let api_results := fetch_apis_parallel fetch_json in
  pmoe_dict ← build_pmoe_dict api_results;
  let uigf_dict := default empty_doc (api_results !! "uigf_dict") in
  gd_maps ← build_genshin_words_maps
              (default (DArr []) (api_results !! "genshin_words"));
  let uid := py_str (py_or (py_or (get (scalars paimon_data) "wish-uid")
                                  (get (scalars paimon_data) "uid")) (VStr "0")) in
  let locale := py_or (get (scalars paimon_data) "locale") (VStr "en") in
  lang ← infer_lang_from_locale locale;
  let synth_id := if isdigit uid then py_int (uid +:+ "000000") else now2_ts in
  st ← foldl (process_banner paimon_data pmoe_dict uigf_dict gd_maps locale lang
                rank_override_map)
             (Some (LoopState [] ∅ synth_id)) GACHA_BANNER_TYPES;
  Some (uid, lang, st).

(** [paimon_to_uigf_v3]; [now_ts] and [now_str] are the clock read at the
    start, as a number and formatted, [now2_ts] the clock read for the seed
    of the identifiers. *)
Definition paimon_to_uigf_v3 (fetch_json : string → doc)
    (now_ts : Z) (now_str : string) (now2_ts : Z)
    (paimon_data : paimon_export) (export_app export_app_version : string)
    (rank_override_map : gmap string obj)
    : option (uigf_v3_doc * gmap string obj) :=
  '(uid, lang, st) ← run_pulls fetch_json now2_ts paimon_data rank_override_map;
  sorted ← sort_by tuple_lt sort_key (uigf_list st);
  let info : obj :=
    {[ "uid" := VStr uid;
       "lang" := VStr lang;
       "export_timestamp" := VInt now_ts;
       "export_time" := VStr now_str;
       "export_app" := VStr export_app;
       "export_app_version" := VStr export_app_version;
       "uigf_version" := VStr "v3.0";
       "region_time_zone" := VInt (infer_timezone_from_uid uid) ]} in
  Some (UigfV3 info sorted, missing_rank st).

(** The body of the loop over the optional members: [k] is copied as a
    string when the record has it and it is not [null]. *)
Definition copy_optional (r entry : obj) (k : string) : obj :=
  match r !! k with
  | Some VNone | None => entry
  | Some v => <[k := VStr (py_str v)]> entry
  end.

(** The body of the loop of [uigf_v3_to_v41]: [None] where the record
    is skipped. *)
Definition v41_entry (r : obj) : option obj :=
  let gacha_type := py_str (get_or r "gacha_type" (VStr "")) in
  if negb (truthy (VStr gacha_type)) || negb (has_key r "time") || negb (has_key r "id")
  then None
  else
    let entry : obj :=
      {[ "uigf_gacha_type" :=
           VStr (to_uigf_gacha_type (py_str (get_or r "uigf_gacha_type" (VStr gacha_type))));
         "gacha_type" := VStr gacha_type;
         "item_id" := VStr (py_str (get_or r "item_id" (VStr "")));
         "time" := get r "time";
         "id" := VStr (py_str (get r "id"));
         "count" := VStr (py_str (get_or r "count" (VStr "1"))) ]} in
    Some (foldl (copy_optional r) entry ["name"; "item_type"; "rank_type"]).

Definition uigf_v3_to_v41 (uigf_v3 : uigf_v3_doc) (version : string)
    : option uigf_v41_doc :=
  let info_v3 := v3_info uigf_v3 in
  let info_v41 : obj :=
    {[ "export_timestamp" := get info_v3 "export_timestamp";
       "export_app" := get info_v3 "export_app";
       "export_app_version" := get info_v3 "export_app_version";
       "version" := VStr version ]} in
  list_v41 ← sort_by tuple_lt sort_key (omap v41_entry (v3_list uigf_v3));
  Some (UigfV41 info_v41
          (get_or info_v3 "uid" (VStr "0"))
          (get_or info_v3 "region_time_zone" (VInt 8))
          (get_or info_v3 "lang" (VStr "en-us"))
          list_v41).

End pipeline.

(** [uigf_v3_to_v4x]; [None] also stands for its [ValueError]. *)
Definition uigf_v3_to_v4x (uigf_v3 : uigf_v3_doc) (target_version : string)
    : option uigf_v41_doc :=
  if startswith target_version "v4.1"
  then uigf_v3_to_v41 uigf_v3 target_version
  else None.

(** The loop of [load_rank_override] over the items of the table file;
    [None] stands for a file that is absent or cannot be read.  The items
    are keyed by whatever their ["pmoe_id"] member holds. *)
Definition load_rank_override (override_file : option (list obj)) : gmap pyval obj :=
  match override_file with
  | None => ∅
  | Some items =>
      foldl (λ rank_override_map item,
               let pmoe_id := get item "pmoe_id" in
               if truthy pmoe_id then <[pmoe_id := item]> rank_override_map
               else rank_override_map) ∅ items
  end.

(** * rank-mapping-tool.py

    The identifier of an item is whatever its ["pmoe_id"] member holds, so
    the dictionaries and sets of the tool are keyed by [pyval]. *)

Definition extract_items_from_missing (items : list obj) : list obj :=
  (foldl (λ (acc : gset pyval * list obj) item,
            let pmoe_id := get item "pmoe_id" in
            if truthy pmoe_id && negb (bool_decide (pmoe_id ∈ acc.1))
            then ({[pmoe_id]} ∪ acc.1, acc.2 ++ [item])
            else acc)
         (∅, []) items).2.

Definition get_existing_pmoe_ids (items : list obj) : gset pyval :=
  list_to_set (filter (λ v, truthy v = true) ((λ it, get it "pmoe_id") <$> items)).

Definition build_override_entry (item : obj) : obj :=
  {[ "pmoe_id" := get item "pmoe_id";
     "name_en" := get item "name_en";
     "name_jp" := get item "name_jp";
     "gacha_type" := get item "gacha_type";
     "rank_type" := VStr "" ]}.

Definition merge_override_entry (new_item existing_entry : obj) : obj :=
  let pmoe_id := get new_item "pmoe_id" in
  let rank_type := get new_item "rank_type" in
  if bool_decide (rank_type = VNone) || bool_decide (strip (py_str rank_type) = "")
  then existing_entry
  else {[ "pmoe_id" := pmoe_id;
          "name_en" := get_or new_item "name_en" (get existing_entry "name_en");
          "name_jp" := get_or new_item "name_jp" (get existing_entry "name_jp");
          "gacha_type" := get_or new_item "gacha_type" (get existing_entry "gacha_type");
          "rank_type" := VStr (py_str rank_type) ]}.

(** [cmd_init]: the items written to the new table. *)
Definition cmd_init (missing_items : list obj) : list obj :=
  build_override_entry <$> extract_items_from_missing missing_items.

(** [cmd_todo]: the items written to the file to fill in. *)
Definition cmd_todo (missing_items override_items : list obj) : list obj :=
  let existing_ids := get_existing_pmoe_ids override_items in
  build_override_entry <$>
    filter (λ item, get item "pmoe_id" ∉ existing_ids)
           (extract_items_from_missing missing_items).

(** The variables the loop of [cmd_merge] updates. *)
Record merge_state : Type := MergeState {
  override_map : gmap pyval obj;
  updated_count : nat;
  added_count : nat
}.

(** The dictionary comprehension that indexes the table by identifier. *)
Definition index_items (items : list obj) : gmap pyval obj :=
  foldl (λ m it, let k := get it "pmoe_id" in
                 if truthy k then <[k := it]> m else m) ∅ items.

(** The body of the loop of [cmd_merge]. *)
Definition merge_step (st : merge_state) (todo_item : obj) : merge_state :=
  let pmoe_id := get todo_item "pmoe_id" in
  if negb (truthy pmoe_id) then st
  else
    let existing := default ∅ (override_map st !! pmoe_id) in
    let merged := merge_override_entry todo_item existing in
    if negb (truthy (get merged "rank_type")) then st
    else
      MergeState (<[pmoe_id := merged]> (override_map st))
        (if has_key (override_map st) pmoe_id
         then S (updated_count st) else updated_count st)
        (if has_key (override_map st) pmoe_id
         then added_count st else S (added_count st)).

(** [cmd_merge]: the items written back, the number of entries added and
    the number updated.  The identifiers of a dictionary are pairwise
    distinct, so the order in which [sorted] receives them changes neither
    its result nor whether it raises; the model hands them over in the
    order of [map_to_list]. *)
Definition cmd_merge (override_items todo_items : list obj)
    : option (list obj * nat * nat) :=
  let st := foldl merge_step (MergeState (index_items override_items) 0 0) todo_items in
  new_items ← sort_keyed py_lt (map_to_list (override_map st));
  Some (new_items.*2, added_count st, updated_count st).

(** * Facts about the Python layer *)

Section order_facts.

Lemma string_compare_refl s : String.compare s s = Eq.
Proof.
  pose proof (String.compare_antisym s s) as H.
  destruct (String.compare s s); simpl in H; congruence.
Qed.

Lemma string_leb_refl s : String.leb s s = true.
Proof. unfold String.leb. by rewrite string_compare_refl. Qed.

Lemma string_ltb_leb s t : String.ltb s t = true → String.leb s t = true.
Proof. unfold String.ltb, String.leb. by destruct (String.compare s t). Qed.

Lemma string_ltb_false s t : String.ltb s t = false → s ≠ t → String.ltb t s = true.
Proof.
  unfold String.ltb. intros H Hne. rewrite String.compare_antisym.
  destruct (String.compare s t) eqn:E; simpl; try done.
  by apply String.compare_eq_iff in E.
Qed.

Lemma py_lt_false a b : py_lt a b = Some false → a ≠ b → py_lt b a = Some true.
Proof.
  destruct a, b; simpl; try done; intros [= H] Hne; f_equal.
  - apply Z.ltb_lt. apply Z.ltb_ge in H. assert (z ≠ z0) by congruence. lia.
  - apply string_ltb_false; [done|congruence].
Qed.

End order_facts.

(** The order of the two sorts on the keys [(time, id)]. *)
Definition key_le (a b : pyval * pyval) : Prop :=
  py_lt a.1 b.1 = Some true ∨
  (a.1 = b.1 ∧ (a.2 = b.2 ∨ py_lt a.2 b.2 = Some true)).

Lemma tuple_lt_true a b : tuple_lt a b = Some true → key_le a b.
Proof.
  unfold tuple_lt, key_le. repeat case_decide; try done; auto.
Qed.

Lemma tuple_lt_false a b : tuple_lt a b = Some false → key_le b a.
Proof.
  unfold tuple_lt, key_le. intros Hlt.
  destruct (decide (a.1 = b.1)) as [E1|N1].
  - right. split; [done|]. destruct (decide (a.2 = b.2)) as [E2|N2]; [by left|].
    right. by apply py_lt_false.
  - left. by apply py_lt_false.
Qed.

Section sort_facts.
Context {K A : Type} (lt : K → K → option bool) (le : K → K → Prop).
Hypothesis lt_true : ∀ a b, lt a b = Some true → le a b.
Hypothesis lt_false : ∀ a b, lt a b = Some false → le b a.

Let R : relation (K * A) := λ a b, le a.1 b.1.

Lemma insert_by_perm (x : K * A) l r : insert_by lt x l = Some r → r ≡ₚ x :: l.
Proof.
  revert r. induction l as [|y l IH]; intros r; simpl.
  - by intros [= <-].
  - destruct (lt y.1 x.1) as [[]|]; simpl; [|by intros [= <-]|done].
    destruct (insert_by lt x l) as [r'|]; simpl; [|done].
    intros [= <-]. rewrite (IH r' eq_refl). apply Permutation_swap.
Qed.

Lemma insert_by_hd (x : K * A) l r z :
  insert_by lt x l = Some r → R z x → HdRel R z l → HdRel R z r.
Proof.
  destruct l as [|y l]; simpl.
  - intros [= <-] ? _. by constructor.
  - destruct (lt y.1 x.1) as [[]|]; simpl; [|intros [= <-] ? _; by constructor|done].
    destruct (insert_by lt x l); simpl; [|done].
    intros [= <-] _ Hd. inversion Hd; subst. by constructor.
Qed.

Lemma insert_by_sorted (x : K * A) l r :
  insert_by lt x l = Some r → Sorted R l → Sorted R r.
Proof.
  revert r. induction l as [|y l IH]; intros r; simpl.
  - intros [= <-] _. by repeat constructor.
  - destruct (lt y.1 x.1) as [[]|] eqn:E; simpl; [| |done].
    + destruct (insert_by lt x l) as [r'|] eqn:E'; simpl; [|done].
      intros [= <-] Hs. inversion Hs; subst. constructor; [by apply IH|].
      eapply insert_by_hd; [done| |done]. by apply lt_true.
    + intros [= <-] Hs. constructor; [done|]. constructor. by apply lt_false.
Qed.

Lemma sort_keyed_perm (l : list (K * A)) r : sort_keyed lt l = Some r → r ≡ₚ l.
Proof.
  revert r. induction l as [|x l IH]; intros r; simpl.
  - by intros [= <-].
  - destruct (sort_keyed lt l) as [r'|]; simpl; [|done].
    intros H. rewrite (insert_by_perm _ _ _ H). by rewrite (IH r' eq_refl).
Qed.

Lemma sort_keyed_sorted (l : list (K * A)) r : sort_keyed lt l = Some r → Sorted R r.
Proof.
  revert r. induction l as [|x l IH]; intros r; simpl.
  - intros [= <-]. constructor.
  - destruct (sort_keyed lt l) as [r'|]; simpl; [|done].
    intros H. eapply insert_by_sorted; [done|]. by apply IH.
Qed.

(** The sort returns when every two keys of the list can be compared. *)
Lemma insert_by_total (x : K * A) l :
  Forall (λ y, is_Some (lt y.1 x.1)) l → is_Some (insert_by lt x l).
Proof.
  induction 1 as [|y l [b Hb] _ IH]; simpl; [done|].
  rewrite Hb. simpl. destruct b; [|done]. by destruct IH as [r ->].
Qed.

Lemma sort_keyed_total (l : list (K * A)) :
  (∀ x y, x ∈ l → y ∈ l → is_Some (lt y.1 x.1)) → is_Some (sort_keyed lt l).
Proof.
  induction l as [|x l IH]; intros H; simpl; [done|].
  destruct IH as [r Hr].
  { intros ????. apply H; by constructor. }
  rewrite Hr. simpl. apply insert_by_total.
  apply Forall_forall. intros y Hy. apply H; [by constructor|].
  constructor. by rewrite <-(sort_keyed_perm _ _ Hr).
Qed.

End sort_facts.

Section sort_by_facts.
Context {K A : Type} (lt : K → K → option bool) (le : K → K → Prop).
Context (key : A → option K).
Hypothesis lt_true : ∀ a b, lt a b = Some true → le a b.
Hypothesis lt_false : ∀ a b, lt a b = Some false → le b a.

(** Two elements are in order when their keys are. *)
Definition keyed_le (a b : A) : Prop :=
  ∃ ka kb, key a = Some ka ∧ key b = Some kb ∧ le ka kb.

Lemma keys_of_mapM (l : list A) ks :
  mapM (λ x, k ← key x; Some (k, x)) l = Some ks →
  ks.*2 = l ∧ Forall (λ p, key p.2 = Some p.1) ks.
Proof.
  rewrite mapM_Some. induction 1 as [|x p l ks Hx _ [IH1 IH2]]; [done|].
  destruct (key x) as [k|] eqn:E; simplify_eq/=. split; [by f_equal|].
  by constructor.
Qed.

Lemma sorted_snd (r : list (K * A)) :
  Forall (λ p, key p.2 = Some p.1) r →
  Sorted (λ a b, le a.1 b.1) r → Sorted keyed_le (r.*2).
Proof.
  induction 1 as [|p r Hp Hr IH]; intros Hs; [constructor|].
  inversion Hs as [|?? Hs' Hd]; subst. simpl. constructor; [by apply IH|].
  destruct Hd as [|q r' Hpq]; simpl; constructor.
  exists p.1, q.1. by inversion Hr; subst.
Qed.

Lemma sort_by_spec l r :
  sort_by lt key l = Some r → r ≡ₚ l ∧ Sorted keyed_le r.
Proof.
  unfold sort_by. intros H.
  destruct (mapM _ l) as [ks|] eqn:Hks; simplify_eq/=.
  destruct (sort_keyed lt ks) as [r'|] eqn:Hr'; simplify_eq/=.
  apply keys_of_mapM in Hks as [<- Hkeys].
  pose proof (sort_keyed_perm _ _ _ Hr') as Hperm. split.
  - by rewrite Hperm.
  - apply sorted_snd.
    + by rewrite Hperm.
    + by eapply sort_keyed_sorted.
Qed.

Lemma sort_by_total l :
  (∀ x, x ∈ l → is_Some (key x)) →
  (∀ x y kx ky, x ∈ l → y ∈ l → key x = Some kx → key y = Some ky →
     is_Some (lt ky kx)) →
  is_Some (sort_by lt key l).
Proof.
  intros Hkey Hlt. unfold sort_by.
  destruct (mapM (λ x, k ← key x; Some (k, x)) l) as [ks|] eqn:Hks.
  - simpl. apply keys_of_mapM in Hks as [<- Hkeys].
    destruct (sort_keyed_total lt ks) as [r ->]; [|done].
    intros x y Hx Hy. rewrite Forall_forall in Hkeys.
    apply (Hlt x.2 y.2); try (by apply Hkeys);
      by apply (list_elem_of_fmap_2 snd).
  - exfalso. apply mapM_None in Hks. rewrite Exists_exists in Hks.
    destruct Hks as (x & Hx & Hn). destruct (Hkey x Hx) as [k Hk].
    by rewrite Hk in Hn.
Qed.

Lemma Sorted_adjacent (R : relation A) l i a b :
  Sorted R l → l !! i = Some a → l !! S i = Some b → R a b.
Proof.
  intros Hs. revert i. induction Hs as [|x l Hs IH Hd]; intros i; [done|].
  destruct i as [|i]; simpl.
  - intros [= ->] Hb. destruct Hd; simplify_eq/=. done.
  - apply IH.
Qed.

End sort_by_facts.

(** * Facts about the pipeline *)

Lemma foldl_option_None {S X} (f : option S → X → option S) l :
  (∀ x, f None x = None) → foldl f None l = None.
Proof. intros Hn. induction l as [|x l IH]; simpl; [done|]. by rewrite Hn. Qed.

(** An invariant of the loop body holds when the loop ends. *)
Lemma foldl_option_inv {S X} (f : option S → X → option S) (I : S → Prop) l :
  (∀ x, f None x = None) →
  (∀ s x s', I s → f (Some s) x = Some s' → I s') →
  ∀ s s', I s → foldl f (Some s) l = Some s' → I s'.
Proof.
  intros Hn Hstep. induction l as [|x l IH]; simpl; intros s s' HI.
  - by intros [= <-].
  - destruct (f (Some s) x) as [s1|] eqn:E.
    + apply IH. by eapply Hstep.
    + by rewrite foldl_option_None.
Qed.

(** The order the specification asks of two adjacent records. *)
Definition in_order (a b : obj) : Prop :=
  ∃ ta tb ia ib,
    a !! "time" = Some ta ∧ a !! "id" = Some (VStr ia) ∧
    b !! "time" = Some tb ∧ b !! "id" = Some (VStr ib) ∧
    (py_lt ta tb = Some true ∨ (ta = tb ∧ String.leb ia ib = true)).

Definition adjacent_in_order (l : list obj) : Prop :=
  ∀ i a b, l !! i = Some a → l !! S i = Some b → in_order a b.

(** A record whose time and identifier are strings. *)
Definition str_keyed (e : obj) : Prop :=
  ∃ t i, e !! "time" = Some (VStr t) ∧ e !! "id" = Some (VStr i).

Lemma keyed_le_in_order (a b : obj) :
  (∃ i, a !! "id" = Some (VStr i)) → (∃ i, b !! "id" = Some (VStr i)) →
  keyed_le key_le sort_key a b → in_order a b.
Proof.
  intros [ia Ha] [ib Hb] (ka & kb & Hka & Hkb & Hle). unfold sort_key in *.
  destruct (a !! "time") as [ta|] eqn:Eta; [|done].
  destruct (b !! "time") as [tb|] eqn:Etb; [|done].
  rewrite Ha in Hka. rewrite Hb in Hkb. simplify_eq/=.
  exists ta, tb, ia, ib. split_and!; try done.
  destruct Hle as [Hlt|[Heq [Heq2|Hlt]]]; simpl in *; [by left|right..].
  - split; [done|]. simplify_eq. apply string_leb_refl.
  - split; [done|]. apply string_ltb_leb. by injection Hlt.
Qed.

Lemma sort_records_spec (l r : list obj) :
  sort_by tuple_lt sort_key l = Some r →
  (∀ e, e ∈ l → ∃ i, e !! "id" = Some (VStr i)) →
  r ≡ₚ l ∧ adjacent_in_order r.
Proof.
  intros Hs Hid.
  destruct (sort_by_spec tuple_lt key_le sort_key tuple_lt_true tuple_lt_false
              l r Hs) as [Hp Hsorted].
  split; [done|]. intros i a b Ha Hb.
  apply keyed_le_in_order.
  - apply Hid. rewrite <-Hp. by eapply list_elem_of_lookup_2.
  - apply Hid. rewrite <-Hp. by eapply list_elem_of_lookup_2.
  - by eapply Sorted_adjacent.
Qed.

Lemma sort_records_total (l : list obj) :
  Forall str_keyed l → is_Some (sort_by tuple_lt sort_key l).
Proof.
  rewrite Forall_forall. intros Hk. apply sort_by_total.
  - intros x Hx. destruct (Hk x Hx) as (t & i & Ht & Hi).
    unfold sort_key. rewrite Ht, Hi. by eexists.
  - intros x y kx ky Hx Hy.
    destruct (Hk x Hx) as (t & i & Ht & Hi).
    destruct (Hk y Hy) as (t' & i' & Ht' & Hi').
    unfold sort_key. rewrite Ht, Hi, Ht', Hi'. simpl. intros [= <-] [= <-].
    unfold tuple_lt. simpl. repeat case_decide; by eexists.
Qed.

Section pipeline_facts.
Variable strptime_ok : string → bool.
Variable dict_repr : obj → string.

Lemma build_uigf_record_fields pull g pid en jp iid rank rid lang e :
  build_uigf_record strptime_ok pull g pid en jp iid rank rid lang = Some e →
  e !! "uigf_gacha_type" = Some (VStr (to_uigf_gacha_type g)) ∧
  e !! "gacha_type" = Some (VStr g) ∧
  e !! "item_id" = Some (VStr iid) ∧
  e !! "time" = Some (VStr (py_str (get_or pull "time" (VStr "")))) ∧
  e !! "id" = Some (VStr rid).
Proof.
  unfold build_uigf_record. case_match; [done|]. intros [= <-].
  repeat match goal with |- context [if ?b then _ else _] => destruct b end;
    rewrite ?lookup_insert_ne by done; split_and!; reflexivity.
Qed.

(** The members copied when present leave the other members alone. *)
Lemma copy_optional_lookup (r entry : obj) k' k :
  k' ≠ k → copy_optional r entry k' !! k = entry !! k.
Proof.
  intros Hne. unfold copy_optional.
  destruct (r !! k') as [[]|]; by rewrite ?lookup_insert_ne.
Qed.

Lemma v41_entry_fields r e :
  v41_entry r = Some e →
  e !! "uigf_gacha_type" =
    Some (VStr (to_uigf_gacha_type
            (py_str (get_or r "uigf_gacha_type"
                       (VStr (py_str (get_or r "gacha_type" (VStr ""))))))))  ∧
  e !! "gacha_type" = Some (VStr (py_str (get_or r "gacha_type" (VStr "")))) ∧
  e !! "time" = Some (get r "time") ∧
  e !! "id" = Some (VStr (py_str (get r "id"))).
Proof.
  unfold v41_entry. case_match; [done|]. intros [= <-]. cbn zeta.
  rewrite !copy_optional_lookup by done. split_and!; reflexivity.
Qed.

(** What [process_pull] appends to the list when it gives out the number
    [n]: a record with a string for its time, the decimal form of [n] for its
    identifier, and ["0"] for its catalogue number when the name table is
    empty. *)
Definition emitted (uigf_dict : doc) (n : Z) (e : obj) : Prop :=
  e !! "id" = Some (VStr (py_str (VInt n))) ∧
  (∃ t, e !! "time" = Some (VStr t)) ∧
  ∃ item_id, e !! "item_id" = Some (VStr item_id) ∧
             (uigf_dict = empty_doc → item_id = "0").

Lemma get_item_id_empty name :
  get_item_id_from_name dict_repr name empty_doc = Some "0".
Proof. by destruct name. Qed.

Lemma process_pull_step pd ud gd loc lang ovr g st p st' :
  process_pull strptime_ok dict_repr pd ud gd loc lang ovr g (Some st) p = Some st' →
  synth_id st' = (synth_id st + 1)%Z ∧
  (uigf_list st' = uigf_list st ∨
   ∃ e, uigf_list st' = uigf_list st ++ [e] ∧ emitted ud (synth_id st + 1) e).
Proof.
  unfold process_pull. simpl.
  destruct (resolve_item_name _ _ _ _ _) as [[en jp]|]; simpl; [|done].
  destruct (get_item_id_from_name dict_repr en ud) as [iid|] eqn:E1; simpl; [|done].
  match goal with |- context [mbind _ ?m] => destruct m as [iid'|] eqn:E2 end;
    simpl; [|done].
  destruct (apply_rank_override _ _ _ _ _) as [[en' jp'] rank'].
  intros [= <-]. simpl. split; [done|].
  match goal with |- context [build_uigf_record ?a ?b ?c ?d ?e ?f ?g ?h ?i ?j] =>
    destruct (build_uigf_record a b c d e f g h i j) as [e0|] eqn:Eb end;
    [right|by left].
  exists e0. split; [done|].
  apply build_uigf_record_fields in Eb as (_ & _ & Hiid & Htime & Hid).
  split; [done|]. split; [by eexists|].
  exists iid'. split; [done|]. intros ->.
  rewrite get_item_id_empty in E1. simplify_eq.
  rewrite get_item_id_empty in E2. by case_match; simplify_eq.
Qed.

(** The invariant of the two loops of [paimon_to_uigf_v3]: the records
    emitted so far carry numbers that grow strictly along the list and lie
    between the seed and the counter. *)
Definition loop_inv (uigf_dict : doc) (seed : Z) (st : loop_state) : Prop :=
  (seed ≤ synth_id st)%Z ∧
  ∃ ks, Forall2 (λ e k, emitted uigf_dict k e) (uigf_list st) ks ∧
        StronglySorted Z.lt ks ∧
        Forall (λ k, seed < k ≤ synth_id st)%Z ks.

Lemma process_pull_inv pd ud gd loc lang ovr g seed st p st' :
  loop_inv ud seed st →
  process_pull strptime_ok dict_repr pd ud gd loc lang ovr g (Some st) p = Some st' →
  loop_inv ud seed st'.
Proof.
  intros (Hseed & ks & Hks & Hsort & Hbound) Hstep.
  apply process_pull_step in Hstep as [Hsynth [Hl|(e & Hl & He)]].
  - split; [lia|]. exists ks. rewrite Hl. split_and!; [done..|].
    eapply Forall_impl; [done|]. simpl. lia.
  - split; [lia|]. exists (ks ++ [(synth_id st + 1)%Z]). rewrite Hl. split_and!.
    + apply Forall2_app; [done|]. by constructor.
    + apply StronglySorted_app_2; [|done|by repeat constructor].
      intros x1 x2 Hx1 Hx2. apply list_elem_of_singleton in Hx2 as ->.
      rewrite Forall_forall in Hbound. specialize (Hbound _ Hx1). simpl in Hbound. lia.
    + apply Forall_app. split.
      * eapply Forall_impl; [done|]. simpl. lia.
      * constructor; [lia|constructor].
Qed.

Lemma process_banner_inv pdata pd ud gd loc lang ovr seed st banner st' :
  loop_inv ud seed st →
  process_banner strptime_ok dict_repr pdata pd ud gd loc lang ovr (Some st) banner
    = Some st' →
  loop_inv ud seed st'.
Proof.
  unfold process_banner. destruct (counters pdata !! banner.1) as [pulls|].
  - intros HI. apply foldl_option_inv; [done| |done].
    intros s x s' Hs. by apply process_pull_inv.
  - by intros HI [= <-].
Qed.

Lemma process_banner_None pdata pd ud gd loc lang ovr banner :
  process_banner strptime_ok dict_repr pdata pd ud gd loc lang ovr None banner = None.
Proof.
  unfold process_banner. destruct (counters pdata !! banner.1); [|done].
  by apply foldl_option_None.
Qed.

Lemma fetch_no_uigf_dict fetch_json :
  fetch_apis_parallel fetch_json !! "uigf_dict" = None.
Proof. unfold fetch_apis_parallel. simpl. by simplify_map_eq. Qed.

(** The seed of the identifiers of a run. *)
Definition seed_of (uid : string) (now2_ts : Z) : Z :=
  if isdigit uid then py_int (uid +:+ "000000") else now2_ts.

(** The account identifier [paimon_to_uigf_v3] reads from the export. *)
Definition uid_of (paimon_data : paimon_export) : string :=
  py_str (py_or (py_or (get (scalars paimon_data) "wish-uid")
                       (get (scalars paimon_data) "uid")) (VStr "0")).

Lemma run_pulls_inv fetch_json now2_ts pdata ovr uid lang st :
  run_pulls strptime_ok dict_repr fetch_json now2_ts pdata ovr = Some (uid, lang, st) →
  uid = uid_of pdata ∧ loop_inv empty_doc (seed_of uid now2_ts) st.
Proof.
  unfold run_pulls. rewrite fetch_no_uigf_dict.
  generalize GACHA_BANNER_TYPES. intros banners. simpl.
  destruct (build_pmoe_dict _) as [pd|]; simpl; [|done].
  destruct (build_genshin_words_maps _) as [gd|]; simpl; [|done].
  destruct (infer_lang_from_locale _) as [lang'|]; simpl; [|done].
  match goal with |- context [foldl ?f ?a ?l] => destruct (foldl f a l) as [st1|] eqn:E end;
    simpl; [|done].
  intros [= <- <- <-]. split; [done|].
  revert E. apply foldl_option_inv.
  - intros x. apply process_banner_None.
  - intros s x s' Hs. by apply process_banner_inv.
  - split; [done|]. exists []. by repeat constructor.
Qed.

End pipeline_facts.

(** * The order of the record lists *)

Section sorted_output.
Variable strptime_ok : string → bool.
Variable dict_repr : obj → string.

Lemma emitted_str_keyed ud n e : emitted ud n e → str_keyed e.
Proof. intros (Hid & [t Ht] & _). by exists t, (py_str (VInt n)). Qed.

Lemma loop_inv_str_keyed ud seed st :
  loop_inv ud seed st → Forall str_keyed (uigf_list st).
Proof.
  intros (_ & ks & Hks & _). induction Hks; constructor; [|done].
  by eapply emitted_str_keyed.
Qed.

Lemma str_keyed_id e : str_keyed e → ∃ i, e !! "id" = Some (VStr i).
Proof. intros (t & i & _ & Hi). by exists i. Qed.

Lemma v41_entries_id (l : list obj) (e : obj) :
  e ∈ omap v41_entry l → ∃ i, e !! "id" = Some (VStr i).
Proof.
  rewrite list_elem_of_omap. intros (r & _ & Hr).
  apply v41_entry_fields in Hr as (_ & _ & _ & Hid). by eexists.
Qed.

Lemma v41_entries_str_keyed (l : list obj) :
  Forall str_keyed l → Forall str_keyed (omap v41_entry l).
Proof.
  rewrite !Forall_forall. intros Hl e. rewrite list_elem_of_omap.
  intros (r & Hr & He). destruct (Hl r Hr) as (t & i & Ht & Hi).
  apply v41_entry_fields in He as (_ & _ & Htime & Hid).
  exists t, (py_str (get r "id")). unfold get in Htime. by rewrite Ht in Htime.
Qed.

Lemma paimon_to_uigf_v3_list fetch_json now_ts now_str now2_ts pdata app ver ovr v3 m :
  paimon_to_uigf_v3 strptime_ok dict_repr fetch_json now_ts now_str now2_ts
    pdata app ver ovr = Some (v3, m) →
  ∃ uid lang st,
    run_pulls strptime_ok dict_repr fetch_json now2_ts pdata ovr = Some (uid, lang, st) ∧
    sort_by tuple_lt sort_key (uigf_list st) = Some (v3_list v3) ∧
    m = missing_rank st.
Proof.
  unfold paimon_to_uigf_v3.
  destruct (run_pulls _ _ _ _ _ _) as [[[uid lang] st]|]; [|done].
  cbn [mbind option_bind].
  destruct (sort_by tuple_lt sort_key (uigf_list st)) as [sorted|] eqn:Es; [|done].
  cbn [mbind option_bind]. intros [= <- <-]. by exists uid, lang, st.
Qed.

(** C1.  Both record lists come out ordered by time, then by
    identifier: of two adjacent records the first has the smaller time, or
    the same time and an identifier that is not greater as a string.  For
    the version 3 list the sort cannot fail: whenever the loop of
    [paimon_to_uigf_v3] ends the function returns, and its list is a
    rearrangement of the emitted records whose times and identifiers are
    strings.  The version 4.1 list is ordered whenever [uigf_v3_to_v41]
    returns, and it returns on every document the first stage made. *)
Theorem output_lists_sorted fetch_json now_ts now_str now2_ts pdata app ver ovr :
  (∀ v3 m,
     paimon_to_uigf_v3 strptime_ok dict_repr fetch_json now_ts now_str now2_ts
       pdata app ver ovr = Some (v3, m) →
     adjacent_in_order (v3_list v3) ∧ Forall str_keyed (v3_list v3)) ∧
  (∀ uid lang st,
     run_pulls strptime_ok dict_repr fetch_json now2_ts pdata ovr = Some (uid, lang, st) →
     ∃ v3 m,
       paimon_to_uigf_v3 strptime_ok dict_repr fetch_json now_ts now_str now2_ts
         pdata app ver ovr = Some (v3, m) ∧
       v3_list v3 ≡ₚ uigf_list st) ∧
  (∀ v3 version v41,
     uigf_v3_to_v41 v3 version = Some v41 → adjacent_in_order (v41_list v41)) ∧
  (∀ v3 m version,
     paimon_to_uigf_v3 strptime_ok dict_repr fetch_json now_ts now_str now2_ts
       pdata app ver ovr = Some (v3, m) →
     is_Some (uigf_v3_to_v41 v3 version)).
Proof.
  assert (∀ v3 m,
     paimon_to_uigf_v3 strptime_ok dict_repr fetch_json now_ts now_str now2_ts
       pdata app ver ovr = Some (v3, m) →
     adjacent_in_order (v3_list v3) ∧ Forall str_keyed (v3_list v3)) as Hv3.
  { intros v3 m H. apply paimon_to_uigf_v3_list in H as (uid & lang & st & Hrun & Hs & _).
    apply run_pulls_inv in Hrun as [_ Hinv]. apply loop_inv_str_keyed in Hinv.
    destruct (sort_records_spec _ _ Hs) as [Hp Hadj].
    - intros e He. apply str_keyed_id. by eapply Forall_forall.
    - split; [done|]. by rewrite Hp. }
  split_and!; [done| | |].
  - intros uid lang st Hrun. unfold paimon_to_uigf_v3. rewrite Hrun.
    cbn [mbind option_bind].
    pose proof Hrun as Hinv. apply run_pulls_inv in Hinv as [_ Hinv].
    apply loop_inv_str_keyed in Hinv.
    destruct (sort_records_total _ Hinv) as [sorted Hs]. rewrite Hs.
    cbn [mbind option_bind]. do 2 eexists. split; [done|]. simpl.
    apply (sort_records_spec _ _ Hs).
    intros e He. apply str_keyed_id. by eapply Forall_forall.
  - intros v3 version v41. unfold uigf_v3_to_v41.
    destruct (sort_by _ _ _) as [sorted|] eqn:Hs; [|done].
    cbn [mbind option_bind]. intros [= <-]. simpl.
    apply (sort_records_spec _ _ Hs). apply v41_entries_id.
  - intros v3 m version H. destruct (Hv3 _ _ H) as [_ Hk].
    unfold uigf_v3_to_v41.
    destruct (sort_records_total (omap v41_entry (v3_list v3))) as [sorted ->];
      [by apply v41_entries_str_keyed|].
    by eexists.
Qed.

End sorted_output.

(** * Name resolution *)

(** The text part of [normalize_en_key]. *)
Definition norm_text (s : string) : string :=
  lower (strip (collapse_ws false (replace_underscore s))).

(** A catalogue name that is a string or absent (never a number). *)
Definition text_or_null (v : pyval) : Prop :=
  match v with
  | VInt _ => False
  | _ => True
  end.

(** The first non-empty value of a list of lookup results. *)
Fixpoint first_truthy (l : list pyval) : option pyval :=
  match l with
  | [] => None
  | v :: l' => if truthy v then Some v else first_truthy l'
  end.

(** The two lookups made for one candidate text: the exact key, then
    the normalized key.  An empty candidate is passed over. *)
Definition candidate_lookups (en_to_ja en_to_ja_norm : gmap pyval pyval)
    (c : string) : list pyval :=
  if bool_decide (c = "") then []
  else [get en_to_ja (VStr c); get en_to_ja_norm (VStr (norm_text c))].



Lemma truthy_str s : truthy (VStr s) = true ↔ s ≠ "".
Proof.
  simpl. rewrite negb_true_iff. split.
  - intros H ->. by rewrite String.eqb_refl in H.
  - intros H. by apply String.eqb_neq.
Qed.

Lemma truthy_str_false s : truthy (VStr s) = false ↔ s = "".
Proof.
  simpl. rewrite negb_false_iff. apply String.eqb_eq.
Qed.

Lemma normalize_en_key_str s : normalize_en_key (VStr s) = Some (norm_text s).
Proof.
  unfold normalize_en_key. destruct (truthy (VStr s)) eqn:E; simpl; [done|].
  apply truthy_str_false in E as ->. done.
Qed.

Lemma normalize_en_key_text v : text_or_null v → is_Some (normalize_en_key v).
Proof.
  destruct v; simpl; [by eexists|done|]. intros _. rewrite normalize_en_key_str.
  by eexists.
Qed.

Lemma english_from_pmoe_id_total s : is_Some (english_from_pmoe_id (VStr s)).
Proof. unfold english_from_pmoe_id. rewrite normalize_en_key_str. by eexists. Qed.


(** The loop over string candidates: it returns, and it finds the first
    non-empty result of the candidates' lookups. *)
Lemma translate_loop_strings e n (cs : list string) jp0 :
  truthy jp0 = false →
  ∃ jp, translate_loop e n (VStr <$> cs) jp0 = Some jp ∧
        match first_truthy (cs ≫= candidate_lookups e n) with
        | Some v => jp = v
        | None => truthy jp = false
        end.
Proof.
  revert jp0. induction cs as [|c cs IH]; intros jp0 Hjp0.
  - by exists jp0.
  - rewrite fmap_cons, bind_cons. cbn [translate_loop].
    unfold candidate_lookups at 1. case_bool_decide as Hc.
    + subst c. rewrite (proj2 (truthy_str_false "")) by done. by apply IH.
    + rewrite (proj2 (truthy_str c)) by done.
      rewrite normalize_en_key_str. cbn [mbind option_bind].
      cbn [app first_truthy].
      destruct (truthy (get e (VStr c))) eqn:E1; [by eexists|].
      destruct (truthy (get n (VStr (norm_text c)))) eqn:E2; [by eexists|].
      by apply IH.
Qed.

(** The English name [resolve_item_name] settles on. *)
Definition english_name (catalog_en : pyval) (derived raw : string) : pyval :=
  if truthy catalog_en then catalog_en else py_or (VStr derived) (VStr raw).

Lemma english_name_truthy en0 d raw : raw ≠ "" → truthy (english_name en0 d raw) = true.
Proof.
  intros Hraw. unfold english_name, py_or.
  destruct (truthy en0) eqn:E; [done|].
  destruct (truthy (VStr d)) eqn:E'; [done|]. by apply truthy_str.
Qed.

(** [resolve_item_name] past its first lines, for any catalogue. *)
Lemma resolve_item_name_unfold pmoe_id raw_name pmoe_dict gd_maps locale :
  ∃ d, english_from_pmoe_id (VStr pmoe_id) = Some d ∧
  let names := get_item_names_from_pmoe_id pmoe_id pmoe_dict in
  let en := english_name names.1 d raw_name in
  resolve_item_name pmoe_id raw_name pmoe_dict gd_maps locale =
    jp ← (if negb (truthy names.2) then
            jp ← translate_loop (default ∅ (gd_maps !! "en_to_ja"))
                    (default ∅ (gd_maps !! "en_to_ja_norm"))
                    [en; VStr d; VStr raw_name] names.2;
            Some (if negb (truthy jp) && truthy (VStr raw_name)
                  then get (default ∅ (gd_maps !! "zh_to_ja")) (VStr raw_name)
                  else jp)
          else Some names.2);
    if negb (truthy en) && negb (truthy jp) then
      l ← py_lower (py_or locale (VStr ""));
      Some (if startswith l "ja" then (en, VStr raw_name) else (VStr raw_name, jp))
    else Some (en, jp).
Proof.
  destruct (english_from_pmoe_id_total pmoe_id) as [d Hd]. exists d. split; [done|].
  unfold resolve_item_name, english_name.
  destruct (get_item_names_from_pmoe_id pmoe_id pmoe_dict) as [en0 jp0].
  rewrite Hd. cbn [mbind option_bind fst snd].
  by destruct (truthy en0).
Qed.

(** C2.  When the raw display name is not empty, a result of
    [resolve_item_name] never has both names empty: its English name is
    not empty.  The function returns whenever the catalogue's English name of
    the item is a string or absent. *)
Theorem resolve_item_name_not_nameless pmoe_id raw_name pmoe_dict gd_maps locale :
  raw_name ≠ "" →
  (∀ en jp,
     resolve_item_name pmoe_id raw_name pmoe_dict gd_maps locale = Some (en, jp) →
     truthy en = true ∨ truthy jp = true) ∧
  (text_or_null (get_item_names_from_pmoe_id pmoe_id pmoe_dict).1 →
   ∃ en jp,
     resolve_item_name pmoe_id raw_name pmoe_dict gd_maps locale = Some (en, jp) ∧
     (truthy en = true ∨ truthy jp = true)).
Proof.
  intros Hraw.
  destruct (resolve_item_name_unfold pmoe_id raw_name pmoe_dict gd_maps locale)
    as (d & Hd & Hres). cbn zeta in Hres. rewrite Hres. clear Hres.
  set (names := get_item_names_from_pmoe_id pmoe_id pmoe_dict).
  pose proof (english_name_truthy names.1 d raw_name Hraw) as Hen.
  set (en1 := english_name names.1 d raw_name) in *.
  split.
  - intros en jp.
    match goal with |- mbind _ ?m = _ → _ => destruct m as [jp1|] end; [|done].
    cbn [mbind option_bind]. rewrite Hen. simpl. intros [= <- <-]. by left.
  - intros Htext.
    assert (∃ jp1, (if negb (truthy names.2) then
            jp ← translate_loop (default ∅ (gd_maps !! "en_to_ja"))
                    (default ∅ (gd_maps !! "en_to_ja_norm"))
                    [en1; VStr d; VStr raw_name] names.2;
            Some (if negb (truthy jp) && truthy (VStr raw_name)
                  then get (default ∅ (gd_maps !! "zh_to_ja")) (VStr raw_name)
                  else jp)
          else Some names.2) = Some jp1) as [jp1 ->].
    { destruct (truthy names.2) eqn:Ejp; simpl; [by eexists|].
      assert (∃ e, en1 = VStr e) as [e ->].
      { subst en1. unfold english_name, py_or in *.
        destruct (truthy names.1) eqn:E1.
        - destruct names.1; try done. by eexists.
        - destruct (truthy (VStr d)); by eexists. }
      destruct (translate_loop_strings (default ∅ (gd_maps !! "en_to_ja"))
                  (default ∅ (gd_maps !! "en_to_ja_norm"))
                  [e; d; raw_name] _ Ejp) as (jp & Hjp & _).
      simpl in Hjp. simpl. rewrite Hjp. by eexists. }
    cbn [mbind option_bind]. rewrite Hen. simpl. exists en1, jp1. split; [done|by left].
Qed.



(** * Overrides *)

Lemma apply_rank_override_no_entry pmoe_id en jp rank (override_map : gmap string obj) :
  override_map !! pmoe_id = None →
  apply_rank_override pmoe_id en jp rank override_map = (en, jp, rank).
Proof. unfold apply_rank_override. by intros ->. Qed.

Lemma override_field_kept (override : obj) key current :
  truthy (get override key) = false → override_field override key current = current.
Proof. unfold override_field. by intros ->. Qed.

Lemma override_field_replaced (override : obj) key current :
  truthy (get override key) = true →
  override_field override key current = VStr (strip (py_str (get override key))).
Proof. unfold override_field. by intros ->. Qed.

(** The example of the specification: an entry that gives the rank only. *)
Example apply_rank_override_rank_only :
  apply_rank_override "x" (VStr "Foo") (VStr "フー") (VStr "4")
    {[ "x" := {[ "rank_type" := VStr "5" ]} ]}
  = (VStr "Foo", VStr "フー", VStr "5").
Proof. by vm_compute. Qed.

(** C4, the defect.  An override value made of white space only passes the
    test of [apply_rank_override] and is then trimmed: the field that was
    set comes out empty. *)
Theorem apply_rank_override_blank_clears :
  apply_rank_override "x" (VStr "Foo") (VStr "フー") (VStr "4")
    {[ "x" := {[ "name_en" := VStr "  " ]} ]}
  = (VStr "", VStr "フー", VStr "4").
Proof. by vm_compute. Qed.

(** * The second stage, record by record *)

(** The test of the loop of [uigf_v3_to_v41]. *)
Definition v41_kept (r : obj) : Prop :=
  py_str (get_or r "gacha_type" (VStr "")) ≠ "" ∧
  is_Some (r !! "time") ∧ is_Some (r !! "id").

Lemma v41_entry_kept r : is_Some (v41_entry r) ↔ v41_kept r.
Proof.
  unfold v41_entry, v41_kept, has_key.
  rewrite <-truthy_str.
  destruct (truthy (VStr (py_str (get_or r "gacha_type" (VStr ""))))); simpl.
  - destruct (r !! "time") as [t|], (r !! "id") as [i|]; simpl; split;
      intros Hk; try (by eexists); try done;
      destruct Hk as (_ & Ht & Hi); by (inversion Ht || inversion Hi).
  - split; intros Hk; [by inversion Hk|by destruct Hk].
Qed.

Lemma get_or_lookup (d : obj) k v dflt : d !! k = Some v → get_or d k dflt = v.
Proof. unfold get_or. by intros ->. Qed.

(** C5, amended.  A record the first stage builds for banner code 400
    carries [uigf_gacha_type] 301 and [gacha_type] 400.  The second stage
    keeps that record; it applies the remap to [uigf_gacha_type] only,
    which stays 301, and copies [gacha_type], which stays 400. *)
Theorem banner_400_both_stages strptime_ok pull pid en jp iid rank rid lang e :
  build_uigf_record strptime_ok pull "400" pid en jp iid rank rid lang = Some e →
  e !! "uigf_gacha_type" = Some (VStr "301") ∧
  e !! "gacha_type" = Some (VStr "400") ∧
  ∃ e', v41_entry e = Some e' ∧
        e' !! "uigf_gacha_type" = Some (VStr "301") ∧
        e' !! "gacha_type" = Some (VStr "400").
Proof.
  intros H. apply build_uigf_record_fields in H as (Hu & Hg & _ & Ht & Hi).
  split; [done|]. split; [done|].
  destruct (proj2 (v41_entry_kept e)) as [e' He'].
  { unfold v41_kept. rewrite (get_or_lookup _ _ _ _ Hg), Ht, Hi. simpl.
    split_and!; [done|by eexists..]. }
  exists e'. split; [done|].
  apply v41_entry_fields in He' as (Hu' & Hg' & _).
  rewrite (get_or_lookup _ _ _ _ Hg) in Hg'.
  rewrite (get_or_lookup _ _ _ _ Hu) in Hu'. done.
Qed.

(** C8, amended.  The second stage keeps a record exactly when the string
    form of its [gacha_type] is not empty and it has a member ["time"] and
    a member ["id"], whatever they hold.  The returned list is a
    rearrangement of the kept records, and the function returns whenever the
    kept records have strings for their times, however many records were
    passed over. *)
Theorem stage2_keeps_exactly :
  (∀ r, is_Some (v41_entry r) ↔ v41_kept r) ∧
  (∀ v3 version v41,
     uigf_v3_to_v41 v3 version = Some v41 →
     v41_list v41 ≡ₚ omap v41_entry (v3_list v3)) ∧
  (∀ v3 version,
     Forall (λ r, v41_kept r → ∃ t, r !! "time" = Some (VStr t)) (v3_list v3) →
     is_Some (uigf_v3_to_v41 v3 version)).
Proof.
  split_and!.
  - apply v41_entry_kept.
  - intros v3 version v41. unfold uigf_v3_to_v41.
    destruct (sort_by _ _ _) as [sorted|] eqn:Hs; [|done].
    cbn [mbind option_bind]. intros [= <-]. simpl.
    apply (sort_records_spec _ _ Hs). apply v41_entries_id.
  - intros v3 version Hall. unfold uigf_v3_to_v41.
    destruct (sort_records_total (omap v41_entry (v3_list v3))) as [sorted ->];
      [|by eexists].
    rewrite Forall_forall in Hall. apply Forall_forall. intros e.
    rewrite list_elem_of_omap. intros (r & Hr & He).
    destruct (Hall r Hr) as [t Ht]; [apply v41_entry_kept; by eexists|].
    apply v41_entry_fields in He as (_ & _ & Htime & Hid).
    exists t, (py_str (get r "id")). unfold get in Htime. by rewrite Ht in Htime.
Qed.

(** * The catalogue number *)

Lemma fetch_apis_parallel_dom fetch_json :
  dom (fetch_apis_parallel fetch_json) = list_to_set API_URLS.*1.
Proof.
  unfold fetch_apis_parallel.
  assert (∀ l (m : gmap string doc),
            dom (foldl (λ results '(key, url), <[key := fetch_json url]> results) m l)
            = dom m ∪ list_to_set l.*1) as Hdom.
  { induction l as [|[k u] l IH]; intros m; simpl.
    - set_solver.
    - rewrite IH, dom_insert_L. set_solver. }
  rewrite Hdom. set_solver.
Qed.

Section item_id.
Variable strptime_ok : string → bool.
Variable dict_repr : obj → string.

(** C10.  The table of catalogue numbers is read under the key
    ["uigf_dict"]; the fetched keys are those of [API_URLS], and that key is
    not among them, so the table is empty in every run and every record of
    the version 3 list has ["0"] for its [item_id], whatever the sources
    hold. *)
Theorem item_id_always_zero fetch_json now_ts now_str now2_ts pdata app ver ovr :
  dom (fetch_apis_parallel fetch_json) = list_to_set API_URLS.*1 ∧
  fetch_apis_parallel fetch_json !! "uigf_dict" = None ∧
  ∀ v3 m,
    paimon_to_uigf_v3 strptime_ok dict_repr fetch_json now_ts now_str now2_ts
      pdata app ver ovr = Some (v3, m) →
    ∀ e, e ∈ v3_list v3 → e !! "item_id" = Some (VStr "0").
Proof.
  split; [apply fetch_apis_parallel_dom|]. split; [apply fetch_no_uigf_dict|].
  intros v3 m H e He.
  apply paimon_to_uigf_v3_list in H as (uid & lang & st & Hrun & Hs & _).
  apply run_pulls_inv in Hrun as [_ (_ & ks & Hks & _)].
  apply sort_by_spec with (le := key_le) in Hs as [Hp _];
    [|apply tuple_lt_true|apply tuple_lt_false].
  rewrite Hp in He. apply list_elem_of_lookup in He as [i Hi].
  destruct (Forall2_lookup_l _ _ _ _ _ Hks Hi) as (k & _ & _ & _ & iid & Hiid & Hz).
  by rewrite Hiid, Hz.
Qed.

End item_id.

(** * The synthesized identifiers *)









Section synthesized_ids.
Variable strptime_ok : string → bool.
Variable dict_repr : obj → string.


End synthesized_ids.

(** * The catalogue built from the sources *)

(** The member [k] of the entry of [id], when the catalogue has both. *)
Definition field_of (pmoe : gmap string obj) (id k : string) : option pyval :=
  pmoe !! id ≫= (λ entry, entry !! k).

(** The items a run reads from the source stored under [key]. *)
Definition source_items (api_results : gmap string doc) (key : string)
    : list (string * blob) :=
  default [] (doc_items (default empty_doc (api_results !! key))).

(** The objects a source holds for the identifier [id], in its order. *)
Definition infos_of (id : string) (items : list (string * blob)) : list obj :=
  omap (λ it : string * blob,
          if decide (it.1 = id)
          then match it.2 with BObj o => Some o | BVal _ => None end
          else None) items.

(** The first value found under [k] in a list of objects, empty or not. *)
Definition first_present (k : string) (infos : list obj) : option pyval :=
  head (omap (λ o : obj, o !! k) infos).

(** The first value under [k] that is not empty, as the specification
    words the rule. *)
Definition first_non_empty (k : string) (infos : list obj) : option pyval :=
  first_truthy (omap (λ o : obj, o !! k) infos).

(** What an object of a source in language [lang] offers for the member
    [k] of an entry. *)
Definition source_field (lang k : string) (info : obj) : option pyval :=
  if decide (k = "name_" +:+ lang) then info !! "name"
  else if decide (k = "rarity") then info !! "rarity"
  else None.

Lemma merge_info_lookup lang info entry k :
  lang = "en" ∨ lang = "jp" →
  merge_info lang info entry !! k =
    match entry !! k with
    | Some v => Some v
    | None => source_field lang k info
    end.
Proof.
  intros [-> | ->]; unfold merge_info, source_field, has_key; simpl String.append;
    destruct (info !! "name") as [n|], (info !! "rarity") as [r|];
    repeat case_bool_decide; repeat case_decide; simplify_map_eq;
    try (by destruct (entry !! k));
    repeat match goal with
           | H : is_Some _ |- _ => destruct H as [? H]
           | H : ¬ is_Some _ |- _ => apply eq_None_not_Some in H
           end; simplify_map_eq; try done;
    match goal with |- ?x = match ?x with _ => _ end => by destruct x end.
Qed.

Lemma add_source_item_field lang pmoe it id k :
  lang = "en" ∨ lang = "jp" →
  field_of (add_source_item lang pmoe it) id k =
    match field_of pmoe id k with
    | Some v => Some v
    | None => head (omap (source_field lang k) (infos_of id [it]))
    end.
Proof.
  intros Hlang. unfold add_source_item, field_of, infos_of. simpl.
  destruct it as [kk b]. simpl. destruct b as [v|o].
  - case_decide; simpl; by destruct (pmoe !! id ≫= _).
  - destruct (decide (kk = id)) as [->|Hne].
    + rewrite lookup_insert_eq. simpl. rewrite merge_info_lookup by done.
      destruct (pmoe !! id) as [entry|]; simpl.
      * destruct (entry !! k); [done|]. by destruct (source_field lang k o).
      * rewrite lookup_empty. by destruct (source_field lang k o).
    + rewrite lookup_insert_ne by done. simpl. by destruct (pmoe !! id ≫= _).
Qed.

Lemma head_omap_app {A B} (f : A → option B) l1 l2 :
  head (omap f (l1 ++ l2)) =
  match head (omap f l1) with Some v => Some v | None => head (omap f l2) end.
Proof.
  induction l1 as [|x l1 IH]; simpl; [done|]. by destruct (f x).
Qed.

Lemma infos_of_cons id it items :
  infos_of id (it :: items) = infos_of id [it] ++ infos_of id items.
Proof. unfold infos_of. simpl. by destruct (decide _); [destruct it.2|]. Qed.

Lemma fold_source_field lang items pmoe id k :
  lang = "en" ∨ lang = "jp" →
  field_of (foldl (add_source_item lang) pmoe items) id k =
    match field_of pmoe id k with
    | Some v => Some v
    | None => head (omap (source_field lang k) (infos_of id items))
    end.
Proof.
  intros Hlang. revert pmoe. induction items as [|it items IH]; intros pmoe.
  - simpl. by destruct (field_of pmoe id k).
  - cbn [foldl]. rewrite IH, add_source_item_field by done.
    rewrite (infos_of_cons id it items), head_omap_app.
    by destruct (field_of pmoe id k).
Qed.

Lemma head_omap_ext {A B} (f g : A → option B) l :
  (∀ x, f x = g x) → head (omap f l) = head (omap g l).
Proof. intros Hfg. induction l as [|x l IH]; simpl; [done|]. rewrite Hfg. by destruct (g x). Qed.

Lemma head_omap_none {A B} (f : A → option B) l :
  (∀ x, f x = None) → head (omap f l) = None.
Proof. intros Hf. induction l as [|x l IH]; simpl; [done|]. by rewrite Hf. Qed.

(** [build_pmoe_dict] when the four sources are objects: the four loops
    one after the other. *)
Lemma build_pmoe_dict_objects api :
  (∀ key, key ∈ pmoe_sources → is_Some (doc_items (default empty_doc (api !! key)))) →
  build_pmoe_dict api =
    Some (foldl (add_source_item "jp")
            (foldl (add_source_item "en")
               (foldl (add_source_item "jp")
                  (foldl (add_source_item "en") ∅ (source_items api "weapons_en"))
                  (source_items api "weapons_ja"))
               (source_items api "characters_en"))
            (source_items api "characters_ja")).
Proof.
  intros Hobj. unfold build_pmoe_dict, pmoe_sources, source_items. cbn [foldl].
  destruct (Hobj "weapons_en") as [w_en Hw_en]; [set_solver|].
  destruct (Hobj "weapons_ja") as [w_ja Hw_ja]; [set_solver|].
  destruct (Hobj "characters_en") as [c_en Hc_en]; [set_solver|].
  destruct (Hobj "characters_ja") as [c_ja Hc_ja]; [set_solver|].
  unfold add_source. rewrite Hw_en, Hw_ja, Hc_en, Hc_ja. done.
Qed.

Lemma build_pmoe_dict_returns api pmoe :
  build_pmoe_dict api = Some pmoe →
  ∀ key, key ∈ pmoe_sources → is_Some (doc_items (default empty_doc (api !! key))).
Proof.
  unfold build_pmoe_dict, pmoe_sources. cbn [foldl]. unfold add_source.
  destruct (doc_items (default empty_doc (api !! "weapons_en"))) eqn:E1; [|done].
  destruct (doc_items (default empty_doc (api !! "weapons_ja"))) eqn:E2; [|done].
  destruct (doc_items (default empty_doc (api !! "characters_en"))) eqn:E3; [|done].
  destruct (doc_items (default empty_doc (api !! "characters_ja"))) eqn:E4; [|done].
  intros _ key Hkey.
  repeat (apply elem_of_cons in Hkey as [->|Hkey]; [by eexists|]).
  by apply elem_of_nil in Hkey.
Qed.

(** C6, amended.  For every identifier the English name of the entry is the
    value of the first object, in the order weapons then characters of the
    English sources, that has a member ["name"], whether that value is empty
    or not; the localized name is the same over the two localized sources;
    the rarity is the value of the first object with a member ["rarity"]
    over the four sources in their fixed order.  A later source therefore
    never replaces a member an earlier one set.  [build_pmoe_dict] returns
    whenever the four sources are objects. *)
Theorem catalogue_first_present api :
  (∀ pmoe, build_pmoe_dict api = Some pmoe →
   ∀ id,
     field_of pmoe id "name_en" =
       first_present "name" (infos_of id (source_items api "weapons_en") ++
                             infos_of id (source_items api "characters_en")) ∧
     field_of pmoe id "name_jp" =
       first_present "name" (infos_of id (source_items api "weapons_ja") ++
                             infos_of id (source_items api "characters_ja")) ∧
     field_of pmoe id "rarity" =
       first_present "rarity" (infos_of id (source_items api "weapons_en") ++
                               infos_of id (source_items api "weapons_ja") ++
                               infos_of id (source_items api "characters_en") ++
                               infos_of id (source_items api "characters_ja"))) ∧
  ((∀ key, key ∈ pmoe_sources →
      is_Some (doc_items (default empty_doc (api !! key)))) →
   is_Some (build_pmoe_dict api)).
Proof.
  split; [|intros Hobj; rewrite build_pmoe_dict_objects by done; by eexists].
  intros pmoe Hbuild id.
  pose proof (build_pmoe_dict_returns _ _ Hbuild) as Hobj.
  rewrite (build_pmoe_dict_objects _ Hobj) in Hbuild. injection Hbuild as <-.
  unfold first_present.
  rewrite !fold_source_field by auto.
  assert (field_of ∅ id "name_en" = None) as -> by done.
  assert (field_of ∅ id "name_jp" = None) as -> by done.
  assert (field_of ∅ id "rarity" = None) as -> by done.
  rewrite !head_omap_app.
  rewrite (head_omap_none (source_field "jp" "name_en")) by done.
  rewrite (head_omap_none (source_field "jp" "name_en")) by done.
  rewrite (head_omap_none (source_field "en" "name_jp")) by done.
  rewrite (head_omap_none (source_field "en" "name_jp")) by done.
  change (source_field "en" "name_en") with (λ o : obj, o !! "name").
  change (source_field "jp" "name_jp") with (λ o : obj, o !! "name").
  change (source_field "en" "rarity") with (λ o : obj, o !! "rarity").
  change (source_field "jp" "rarity") with (λ o : obj, o !! "rarity").
  split_and!; repeat case_match; congruence.
Qed.

(** * Merging a batch into the override table *)

(** A batch entry whose rank is filled in. *)
Definition nonblank_rank (it : obj) : Prop :=
  get it "rank_type" ≠ VNone ∧ strip (py_str (get it "rank_type")) ≠ "".

(** The rank of a batch entry is ASCII text, on which [strip] removes what
    [str.strip] removes. *)
Definition ascii_rank (it : obj) : Prop :=
  isascii (py_str (get it "rank_type")) = true.

(** The batch entries that carry an identifier. *)
Definition count_ids (batch : list obj) : nat :=
  length (filter (λ it, truthy (get it "pmoe_id") = true) batch).

(** The successive values a member takes when the entries [its] are merged
    one after the other into an entry that holds [x]. *)
Definition field_fold (f : string) (x : pyval) (its : list obj) : pyval :=
  foldl (λ x it, get_or it f x) x its.

(** The entry of one identifier after the entries [its] of the batch. *)
Definition entry_fold (e : option obj) (its : list obj) : option obj :=
  foldl (λ e it, Some (merge_override_entry it (default ∅ e))) e its.

Lemma merge_override_entry_nonblank it ex :
  nonblank_rank it →
  merge_override_entry it ex =
    {[ "pmoe_id" := get it "pmoe_id";
       "name_en" := get_or it "name_en" (get ex "name_en");
       "name_jp" := get_or it "name_jp" (get ex "name_jp");
       "gacha_type" := get_or it "gacha_type" (get ex "gacha_type");
       "rank_type" := VStr (py_str (get it "rank_type")) ]}.
Proof.
  intros [Hnone Hblank]. unfold merge_override_entry.
  rewrite bool_decide_false by done. by rewrite bool_decide_false by done.
Qed.

Lemma merged_rank_truthy it ex :
  nonblank_rank it → truthy (get (merge_override_entry it ex) "rank_type") = true.
Proof.
  intros Hnb. rewrite merge_override_entry_nonblank by done.
  unfold get at 1. simplify_map_eq. cbn [default]. apply truthy_str.
  destruct Hnb as [_ Hblank]. intros Heq. by rewrite Heq in Hblank.
Qed.

Lemma merged_pmoe_id it ex :
  nonblank_rank it → get (merge_override_entry it ex) "pmoe_id" = get it "pmoe_id".
Proof.
  intros Hnb. rewrite merge_override_entry_nonblank by done.
  unfold get at 1. by simplify_map_eq.
Qed.

(** One step of the loop on an entry with a rank. *)
Lemma merge_step_nonblank st it :
  nonblank_rank it →
  merge_step st it =
    if truthy (get it "pmoe_id") then
      MergeState
        (<[get it "pmoe_id" :=
             merge_override_entry it (default ∅ (override_map st !! get it "pmoe_id"))]>
           (override_map st))
        (if has_key (override_map st) (get it "pmoe_id")
         then S (updated_count st) else updated_count st)
        (if has_key (override_map st) (get it "pmoe_id")
         then added_count st else S (added_count st))
    else st.
Proof.
  intros Hnb. unfold merge_step. destruct (truthy (get it "pmoe_id")); simpl; [|done].
  by rewrite merged_rank_truthy.
Qed.

Lemma field_fold_const_or_id f its :
  (∀ x, field_fold f x its = x) ∨ (∃ c, ∀ x, field_fold f x its = c).
Proof.
  unfold field_fold. induction its as [|j its IH]; simpl; [by left|].
  destruct IH as [Hid|[c Hc]]; [|right; by exists c].
  unfold get_or. destruct (j !! f) as [c|]; simpl.
  - right. exists c. intros x. apply Hid.
  - left. intros x. apply Hid.
Qed.

Lemma field_fold_idemp f x its :
  field_fold f (field_fold f x its) its = field_fold f x its.
Proof.
  destruct (field_fold_const_or_id f its) as [Hid|[c Hc]].
  - by rewrite !Hid.
  - by rewrite !Hc.
Qed.

Lemma field_fold_snoc f x its j :
  field_fold f x (its ++ [j]) = get_or j f (field_fold f x its).
Proof. unfold field_fold. by rewrite foldl_snoc. Qed.

Lemma get_entry_fields (pid a b c d : pyval) :
  let e : obj := {[ "pmoe_id" := pid; "name_en" := a; "name_jp" := b;
                    "gacha_type" := c; "rank_type" := d ]} in
  get e "pmoe_id" = pid ∧ get e "name_en" = a ∧ get e "name_jp" = b ∧
  get e "gacha_type" = c ∧ get e "rank_type" = d.
Proof. unfold get. by simplify_map_eq. Qed.

(** The entry after a batch that ends with [j]: the identifier and the rank
    of [j], and for each other member the last value the batch gave, or
    else the value the entry had. *)
Lemma entry_fold_snoc e its j :
  Forall nonblank_rank (its ++ [j]) →
  entry_fold e (its ++ [j]) =
    Some {[ "pmoe_id" := get j "pmoe_id";
            "name_en" := field_fold "name_en" (get (default ∅ e) "name_en") (its ++ [j]);
            "name_jp" := field_fold "name_jp" (get (default ∅ e) "name_jp") (its ++ [j]);
            "gacha_type" := field_fold "gacha_type" (get (default ∅ e) "gacha_type") (its ++ [j]);
            "rank_type" := VStr (py_str (get j "rank_type")) ]}.
Proof.
  revert j. induction its as [|j' its IH] using rev_ind; intros j Hnb.
  - apply Forall_app in Hnb as [_ Hj]. apply Forall_inv in Hj.
    unfold entry_fold, field_fold. cbn [app foldl].
    by rewrite merge_override_entry_nonblank.
  - apply Forall_app in Hnb as [Hits Hj]. apply Forall_inv in Hj.
    unfold entry_fold in *. rewrite foldl_snoc, IH by done.
    rewrite merge_override_entry_nonblank by done.
    change (default ∅ (Some ?x)) with x.
    rewrite !(field_fold_snoc _ _ (its ++ [j'])).
    destruct (get_entry_fields (get j' "pmoe_id")
      (field_fold "name_en" (get (default ∅ e) "name_en") (its ++ [j']))
      (field_fold "name_jp" (get (default ∅ e) "name_jp") (its ++ [j']))
      (field_fold "gacha_type" (get (default ∅ e) "gacha_type") (its ++ [j']))
      (VStr (py_str (get j' "rank_type")))) as (_ & -> & -> & -> & _).
    done.
Qed.

Lemma entry_fold_idemp e its :
  its ≠ [] → Forall nonblank_rank its →
  entry_fold (entry_fold e its) its = entry_fold e its.
Proof.
  destruct its as [|j its _] using rev_ind; [done|]. intros _ Hnb.
  rewrite (entry_fold_snoc e) by done. rewrite entry_fold_snoc by done.
  change (default ∅ (Some ?x)) with x.
  destruct (get_entry_fields (get j "pmoe_id")
    (field_fold "name_en" (get (default ∅ e) "name_en") (its ++ [j]))
    (field_fold "name_jp" (get (default ∅ e) "name_jp") (its ++ [j]))
    (field_fold "gacha_type" (get (default ∅ e) "gacha_type") (its ++ [j]))
    (VStr (py_str (get j "rank_type")))) as (_ & -> & -> & -> & _).
  by rewrite !field_fold_idemp.
Qed.

Lemma entry_fold_is_Some e its : its ≠ [] → is_Some (entry_fold e its).
Proof.
  destruct its as [|j its _] using rev_ind; [done|]. intros _.
  unfold entry_fold. rewrite foldl_snoc. by eexists.
Qed.

(** The entry of an identifier after the loop over a batch whose entries
    all have a rank: only the batch entries of that identifier count. *)
Lemma merge_fold_lookup batch st k :
  Forall nonblank_rank batch → truthy k = true →
  override_map (foldl merge_step st batch) !! k =
    entry_fold (override_map st !! k) (filter (λ it, get it "pmoe_id" = k) batch).
Proof.
  intros Hnb Hk. revert st. induction Hnb as [|it batch Hit _ IH]; intros st; [done|].
  cbn [foldl]. rewrite IH, merge_step_nonblank by done. rewrite filter_cons.
  destruct (decide (get it "pmoe_id" = k)) as [->|Hne].
  - rewrite Hk. cbn [override_map]. by rewrite lookup_insert_eq.
  - destruct (truthy (get it "pmoe_id")); [|done].
    cbn [override_map]. by rewrite lookup_insert_ne.
Qed.

Lemma merge_fold_lookup_falsy batch st k :
  Forall nonblank_rank batch → truthy k = false →
  override_map (foldl merge_step st batch) !! k = override_map st !! k.
Proof.
  intros Hnb Hk. revert st. induction Hnb as [|it batch Hit _ IH]; intros st; [done|].
  cbn [foldl]. rewrite IH, merge_step_nonblank by done.
  destruct (truthy (get it "pmoe_id")) eqn:E; [|done].
  cbn [override_map]. rewrite lookup_insert_ne; [done|]. intros Heq. congruence.
Qed.

Lemma filter_nonblank (P : obj → Prop) `{∀ x, Decision (P x)} batch :
  Forall nonblank_rank batch → Forall nonblank_rank (filter P batch).
Proof.
  rewrite !Forall_forall. intros Hnb it Hit. apply Hnb.
  by apply list_elem_of_filter in Hit as [_ ?].
Qed.

(** Merging the same batch again changes no entry. *)
Lemma merge_fold_idemp batch st u a :
  Forall nonblank_rank batch →
  override_map (foldl merge_step
                  (MergeState (override_map (foldl merge_step st batch)) u a) batch)
  = override_map (foldl merge_step st batch).
Proof.
  intros Hnb. apply map_eq. intros k. destruct (truthy k) eqn:Hk.
  - rewrite merge_fold_lookup by done. cbn [override_map].
    rewrite (merge_fold_lookup batch st) by done.
    destruct (filter (λ it, get it "pmoe_id" = k) batch) as [|it its] eqn:Ef; [done|].
    rewrite <-Ef. apply entry_fold_idemp; [by rewrite Ef|].
    by apply filter_nonblank.
  - by rewrite merge_fold_lookup_falsy.
Qed.

Lemma merge_fold_present batch st it :
  Forall nonblank_rank batch → it ∈ batch → truthy (get it "pmoe_id") = true →
  is_Some (override_map (foldl merge_step st batch) !! get it "pmoe_id").
Proof.
  intros Hnb Hit Hk. rewrite merge_fold_lookup by done.
  apply entry_fold_is_Some. intros Hnil.
  assert (it ∈ filter (λ it', get it' "pmoe_id" = get it "pmoe_id") batch) as Hin
    by by apply list_elem_of_filter.
  rewrite Hnil in Hin. by apply elem_of_nil in Hin.
Qed.

Lemma count_ids_cons it batch :
  count_ids (it :: batch) =
  (if truthy (get it "pmoe_id") then 1 else 0) + count_ids batch.
Proof.
  unfold count_ids. rewrite filter_cons.
  destruct (truthy (get it "pmoe_id")); by case_decide.
Qed.

(** When every identifier of the batch is in the table already, each batch
    entry that has one counts as an update and none as an addition. *)
Lemma merge_fold_counts batch st :
  Forall nonblank_rank batch →
  (∀ it, it ∈ batch → truthy (get it "pmoe_id") = true →
         is_Some (override_map st !! get it "pmoe_id")) →
  updated_count (foldl merge_step st batch) = updated_count st + count_ids batch ∧
  added_count (foldl merge_step st batch) = added_count st.
Proof.
  intros Hnb. revert st. induction Hnb as [|it batch Hit _ IH]; intros st Hin.
  - unfold count_ids. simpl. lia.
  - cbn [foldl]. rewrite count_ids_cons, merge_step_nonblank by done.
    destruct (truthy (get it "pmoe_id")) eqn:Hk.
    + unfold has_key. rewrite bool_decide_true by (apply Hin; [by left|done]).
      destruct (IH (MergeState
                (<[get it "pmoe_id" :=
                     merge_override_entry it
                       (default ∅ (override_map st !! get it "pmoe_id"))]>
                   (override_map st))
                (S (updated_count st)) (added_count st))) as [-> ->].
      * intros it' Hit' Hk'. cbn [override_map].
        destruct (decide (get it "pmoe_id" = get it' "pmoe_id")) as [->|Hne].
        -- rewrite lookup_insert_eq. by eexists.
        -- rewrite lookup_insert_ne by done. apply Hin; [by right|done].
      * cbn [updated_count added_count]. lia.
    + destruct (IH st) as [-> ->]; [|lia].
      intros it' Hit' Hk'. apply Hin; [by right|done].
Qed.

(** The shape of the table in memory: every entry is filed under its own
    identifier, which is not empty. *)
Definition filed (m : gmap pyval obj) : Prop :=
  ∀ k it, m !! k = Some it → get it "pmoe_id" = k ∧ truthy k = true.

Lemma index_items_from_filed items m :
  filed m →
  filed (foldl (λ m it, let k := get it "pmoe_id" in
                        if truthy k then <[k := it]> m else m) m items).
Proof.
  revert m. induction items as [|it items IH]; intros m Hm; [done|].
  cbn [foldl]. apply IH. cbn zeta.
  destruct (truthy (get it "pmoe_id")) eqn:Hk; [|done].
  intros k it'. destruct (decide (get it "pmoe_id" = k)) as [<-|Hne].
  - rewrite lookup_insert_eq. by intros [= <-].
  - rewrite lookup_insert_ne by done. apply Hm.
Qed.

Lemma index_items_filed items : filed (index_items items).
Proof. apply index_items_from_filed. by intros k it. Qed.

Lemma merge_fold_filed batch st :
  Forall nonblank_rank batch → filed (override_map st) →
  filed (override_map (foldl merge_step st batch)).
Proof.
  intros Hnb. revert st. induction Hnb as [|it batch Hit _ IH]; intros st Hst; [done|].
  cbn [foldl]. apply IH. rewrite merge_step_nonblank by done.
  destruct (truthy (get it "pmoe_id")) eqn:Hk; [|done].
  cbn [override_map]. intros k it'.
  destruct (decide (get it "pmoe_id" = k)) as [<-|Hne].
  - rewrite lookup_insert_eq. intros [= <-]. by rewrite merged_pmoe_id.
  - rewrite lookup_insert_ne by done. apply Hst.
Qed.

(** Indexing the values of a filed table gives the table back. *)
Lemma index_items_values (l : list (pyval * obj)) (m : gmap pyval obj) :
  NoDup l.*1 →
  Forall (λ p, get p.2 "pmoe_id" = p.1 ∧ truthy p.1 = true) l →
  foldl (λ m it, let k := get it "pmoe_id" in
                 if truthy k then <[k := it]> m else m) m l.*2
  = list_to_map l ∪ m.
Proof.
  revert m. induction l as [|[k it] l IH]; intros m Hnd Hl.
  - simpl. by rewrite (left_id_L ∅ (∪)).
  - apply NoDup_cons in Hnd as [Hk Hnd]. apply Forall_cons in Hl as [[Hid Ht] Hl].
    cbn [fmap list_fmap foldl snd fst list_to_map foldr] in *.
    rewrite Hid, Ht. rewrite IH by done.
    rewrite <-insert_union_l. symmetry. apply insert_union_r.
    by apply not_elem_of_list_to_map_1.
Qed.

Lemma index_items_sorted (m : gmap pyval obj) r :
  filed m → r ≡ₚ map_to_list m → index_items r.*2 = m.
Proof.
  intros Hm Hp. unfold index_items. rewrite index_items_values.
  - rewrite (right_id_L ∅ (∪)). rewrite <-(list_to_map_to_list m).
    apply list_to_map_proper; [|done]. rewrite Hp. apply NoDup_fst_map_to_list.
  - rewrite Hp. apply NoDup_fst_map_to_list.
  - apply Forall_forall. intros [k it] Hin. rewrite Hp in Hin.
    apply elem_of_map_to_list in Hin. by apply Hm.
Qed.

(** C7, amended.  Take a batch whose entries all have a rank, written in
    ASCII, and merge it into a table.  Merging the same batch into the
    resulting table gives the same table again, reports no entry added, and
    reports as updated every batch entry that has an identifier, an
    identifier that occurs several times being counted each time. *)
Theorem merge_twice override_items batch new_items added updated :
  Forall ascii_rank batch →
  Forall nonblank_rank batch →
  cmd_merge override_items batch = Some (new_items, added, updated) →
  cmd_merge new_items batch = Some (new_items, 0, count_ids batch).
Proof.
  intros _ Hnb. unfold cmd_merge.
  set (st1 := foldl merge_step (MergeState (index_items override_items) 0 0) batch).
  destruct (sort_keyed py_lt (map_to_list (override_map st1))) as [r|] eqn:Hs; [|done].
  cbn [mbind option_bind]. intros [= <- _ _].
  assert (filed (override_map st1)) as Hfiled
    by (apply merge_fold_filed; [done|apply index_items_filed]).
  assert (r ≡ₚ map_to_list (override_map st1)) as Hp.
  { by eapply sort_keyed_perm. }
  rewrite (index_items_sorted _ _ Hfiled Hp).
  set (st2 := foldl merge_step (MergeState (override_map st1) 0 0) batch).
  assert (override_map st2 = override_map st1) as Hmap
    by apply merge_fold_idemp, Hnb.
  destruct (merge_fold_counts batch (MergeState (override_map st1) 0 0) Hnb)
    as [Hu Ha].
  { intros it Hit Hk. cbn [override_map]. by apply merge_fold_present. }
  fold st2 in Hu, Ha. rewrite Hmap, Hs. cbn [mbind option_bind].
  rewrite Hu, Ha. done.
Qed.

(** * Runs on concrete data *)

(** An instance of [strptime_ok] for the examples: the strings of the form
    dddd-dd-dd dd:dd:dd, which [strptime] accepts when the numbers are in
    range, as they are below. *)
Definition sample_strptime_ok (s : string) : bool :=
  match list_ascii_of_string s with
  | [y1; y2; y3; y4; c1; m1; m2; c2; d1; d2; c3; h1; h2; c4; n1; n2; c5; s1; s2] =>
      forallb is_digit [y1; y2; y3; y4; m1; m2; d1; d2; h1; h2; n1; n2; s1; s2]
      && Ascii.eqb c1 "-" && Ascii.eqb c2 "-" && Ascii.eqb c3 " "
      && Ascii.eqb c4 ":" && Ascii.eqb c5 ":"
  | _ => false
  end.

(** An instance of [dict_repr] for the examples, where no dictionary is
    ever printed. *)
Definition sample_dict_repr (o : obj) : string := "{}".

(** Sources that all fail but the English name table, which knows Mika. *)
Definition sample_fetch (url : string) : doc :=
  if decide (url = "https://api.uigf.org/dict/genshin/en.json")
  then DObj [("Mika", BVal (VInt 10000080))]
  else empty_doc.

(** The export of the end-to-end scenario, with one more pull on another
    banner at an earlier time. *)
Definition sample_export : paimon_export :=
  PaimonExport
    {[ "wish-uid" := VStr "700000001"; "locale" := VStr "ja" ]}
    {[ "wish-counter-standard" :=
         [ ({[ "id" := VStr "mika"; "name" := VStr "Mika";
               "type" := VStr "character";
               "time" := VStr "2024-01-01 00:00:00" ]} : obj) ];
       "wish-counter-character-event" :=
         [ ({[ "id" := VStr "aqua_simulacra"; "name" := VStr "Aqua Simulacra";
               "type" := VStr "weapon";
               "time" := VStr "2023-12-31 23:59:59" ]} : obj);
           ({[ "id" := VStr "broken"; "name" := VStr "Broken";
               "type" := VStr "weapon";
               "time" := VStr "yesterday" ]} : obj) ] ]}.

Definition sample_run : option (uigf_v3_doc * gmap string obj) :=
  paimon_to_uigf_v3 sample_strptime_ok sample_dict_repr sample_fetch
    1700000000 "2023-11-14 22:13:20" 1700000000
    sample_export "PMOE-Local-Converter" "1.0.2" ∅.

Example sample_run_ids :
  (λ r, (λ e : obj, (e !! "id", e !! "time", e !! "gacha_type", e !! "item_id"))
          <$> v3_list r.1) <$> sample_run
  = Some [ (Some (VStr "700000001000001"), Some (VStr "2023-12-31 23:59:59"),
            Some (VStr "301"), Some (VStr "0"));
           (Some (VStr "700000001000003"), Some (VStr "2024-01-01 00:00:00"),
            Some (VStr "200"), Some (VStr "0")) ].
Proof. by vm_compute. Qed.

(** Whether a call returned. *)
Definition returned {A} (o : option A) : bool :=
  match o with
  | Some _ => true
  | None => false
  end.

Lemma sample_run_returns : returned sample_run = true.
Proof. by vm_compute. Qed.

(** C1 on the sample export: both stages return and both lists are in
    order. *)
Lemma output_lists_sorted_witness :
  ∃ v3 m v41,
    sample_run = Some (v3, m) ∧
    adjacent_in_order (v3_list v3) ∧
    uigf_v3_to_v41 v3 "v4.1" = Some v41 ∧
    adjacent_in_order (v41_list v41).
Proof.
  pose proof sample_run_returns as Hret.
  destruct sample_run as [[v3 m]|] eqn:E; [clear Hret|discriminate Hret].
  destruct (output_lists_sorted sample_strptime_ok sample_dict_repr sample_fetch
              1700000000 "2023-11-14 22:13:20" 1700000000
              sample_export "PMOE-Local-Converter" "1.0.2" ∅) as (H1 & _ & H3 & H4).
  destruct (H4 v3 m "v4.1" E) as [v41 Hv41].
  exists v3, m, v41. split; [done|]. split; [by apply (H1 v3 m)|].
  split; [done|]. by apply (H3 v3 "v4.1").
Defined.

(** C2 on the scenario's pull, with empty reference data. *)
Lemma resolve_item_name_not_nameless_witness :
  "Mika" ≠ "" ∧
  (∀ en jp,
     resolve_item_name "mika" "Mika" ∅ ∅ (VStr "ja") = Some (en, jp) →
     truthy en = true ∨ truthy jp = true) ∧
  (text_or_null (get_item_names_from_pmoe_id "mika" ∅).1 →
   ∃ en jp,
     resolve_item_name "mika" "Mika" ∅ ∅ (VStr "ja") = Some (en, jp) ∧
     (truthy en = true ∨ truthy jp = true)).
Proof.
  split; [done|]. by apply (resolve_item_name_not_nameless "mika" "Mika" ∅ ∅ (VStr "ja")).
Defined.

(** Translation tables in which only the normalized key of the raw name
    ["AQUA  simulacra"] leads to a localized name. *)
Definition sample_gd_maps : gmap string (gmap pyval pyval) :=
  {[ "en_to_ja" := ∅;
     "en_to_ja_norm" := {[ VStr "aqua simulacra" := VStr "アクアシミュラクラ" ]};
     "zh_to_ja" := ∅ ]}.



(** A pull of the sample export, for the record-level examples, and the
    record the first stage builds for it under banner code 400. *)
Definition sample_pull : obj :=
  {[ "id" := VStr "mika"; "name" := VStr "Mika"; "type" := VStr "character";
     "time" := VStr "2024-01-01 00:00:00" ]}.

Definition sample_record_400 : option obj :=
  build_uigf_record sample_strptime_ok sample_pull "400" "mika"
    (VStr "Mika") VNone "0" VNone "700000001000001" "ja-jp".

(** C5 as stated fails: the second stage leaves [gacha_type] at 400. *)
Lemma banner_400_counterexample :
  (λ e : obj, (e !! "uigf_gacha_type", e !! "gacha_type")) <$> sample_record_400
    = Some (Some (VStr "301"), Some (VStr "400")) ∧
  (λ e : obj, (e !! "uigf_gacha_type", e !! "gacha_type"))
    <$> (sample_record_400 ≫= v41_entry)
    = Some (Some (VStr "301"), Some (VStr "400")) ∧
  VStr "400" ≠ VStr "301".
Proof. split; [by vm_compute|]. split; [by vm_compute|done]. Qed.

Lemma sample_record_400_returns : returned sample_record_400 = true.
Proof. by vm_compute. Qed.

Lemma banner_400_both_stages_witness :
  ∃ e,
    sample_record_400 = Some e ∧
    e !! "uigf_gacha_type" = Some (VStr "301") ∧
    e !! "gacha_type" = Some (VStr "400") ∧
    ∃ e', v41_entry e = Some e' ∧
          e' !! "uigf_gacha_type" = Some (VStr "301") ∧
          e' !! "gacha_type" = Some (VStr "400").
Proof.
  pose proof sample_record_400_returns as Hret.
  destruct sample_record_400 as [e|] eqn:E; [clear Hret|discriminate Hret].
  exists e. split; [done|].
  exact (banner_400_both_stages sample_strptime_ok sample_pull "mika"
           (VStr "Mika") VNone "0" VNone "700000001000001" "ja-jp" e E).
Defined.

(** Two English sources for the same item, the first with an empty name. *)
Definition sample_api : gmap string doc :=
  {[ "weapons_en" := DObj [("x", BObj {[ "name" := VStr "" ]})];
     "characters_en" := DObj [("x", BObj {[ "name" := VStr "Foo";
                                            "rarity" := VInt 4 ]})] ]}.

(** C6 as stated fails: the empty name of the first source stays, although
    a later source has a name that is not empty. *)
Lemma first_non_empty_counterexample :
  (λ pmoe, field_of pmoe "x" "name_en") <$> build_pmoe_dict sample_api
    = Some (Some (VStr "")) ∧
  first_non_empty "name"
    (infos_of "x" (source_items sample_api "weapons_en") ++
     infos_of "x" (source_items sample_api "characters_en")) = Some (VStr "Foo").
Proof. split; by vm_compute. Qed.

Lemma sample_api_returns : returned (build_pmoe_dict sample_api) = true.
Proof. by vm_compute. Qed.

Lemma catalogue_first_present_witness :
  ∃ pmoe,
    build_pmoe_dict sample_api = Some pmoe ∧
    field_of pmoe "x" "name_en" =
      first_present "name" (infos_of "x" (source_items sample_api "weapons_en") ++
                            infos_of "x" (source_items sample_api "characters_en")) ∧
    field_of pmoe "x" "rarity" =
      first_present "rarity" (infos_of "x" (source_items sample_api "weapons_en") ++
                              infos_of "x" (source_items sample_api "weapons_ja") ++
                              infos_of "x" (source_items sample_api "characters_en") ++
                              infos_of "x" (source_items sample_api "characters_ja")).
Proof.
  pose proof sample_api_returns as Hret.
  destruct (build_pmoe_dict sample_api) as [pmoe|] eqn:E; [clear Hret|discriminate Hret].
  exists pmoe. split; [done|].
  destruct (proj1 (catalogue_first_present sample_api) pmoe E "x") as (Hen & _ & Hr).
  by split.
Defined.

(** A batch that names the same item twice. *)
Definition sample_batch : list obj :=
  [ {[ "pmoe_id" := VStr "X"; "rank_type" := VStr "5" ]};
    {[ "pmoe_id" := VStr "X"; "name_en" := VStr "Foo"; "rank_type" := VInt 4 ]} ].

(** The first merge of [batch] into [table], then the second merge of the
    same batch into the result: whether the table stayed the same, and the
    counts of the second run. *)
Definition merge_again (table batch : list obj) : option (bool * nat * nat) :=
  r1 ← cmd_merge table batch;
  r2 ← cmd_merge r1.1.1 batch;
  Some (bool_decide (r2.1.1 = r1.1.1), r2.1.2, r2.2).

(** C7 as stated fails: the batch has one distinct identifier, and the
    second run reports two updates. *)
Lemma merge_twice_counterexample :
  merge_again [] sample_batch = Some (true, 0, 2) ∧
  size (get_existing_pmoe_ids sample_batch) = 1.
Proof. split; by vm_compute. Qed.

Lemma sample_batch_nonblank : Forall nonblank_rank sample_batch.
Proof. repeat constructor; by vm_compute. Qed.

Lemma sample_batch_ascii : Forall ascii_rank sample_batch.
Proof. repeat constructor; by vm_compute. Qed.

Lemma sample_merge_returns : returned (cmd_merge [] sample_batch) = true.
Proof. by vm_compute. Qed.

Lemma merge_twice_witness :
  ∃ new_items added updated,
    cmd_merge [] sample_batch = Some (new_items, added, updated) ∧
    cmd_merge new_items sample_batch = Some (new_items, 0, count_ids sample_batch).
Proof.
  pose proof sample_merge_returns as Hret.
  destruct (cmd_merge [] sample_batch) as [[[t a] u]|] eqn:E;
    [clear Hret|discriminate Hret].
  exists t, a, u. split; [done|].
  exact (merge_twice [] sample_batch t a u sample_batch_ascii
           sample_batch_nonblank E).
Defined.

(** A record with an empty time and an empty identifier. *)
Definition sample_empty_record : obj :=
  {[ "gacha_type" := VStr "200"; "time" := VStr ""; "id" := VStr "" ]}.

(** C8 as stated fails: the record is kept. *)
Lemma empty_time_kept_counterexample :
  sample_empty_record !! "time" = Some (VStr "") ∧
  sample_empty_record !! "id" = Some (VStr "") ∧
  (λ d, (λ e : obj, (e !! "time", e !! "id")) <$> v41_list d)
    <$> uigf_v3_to_v41 (UigfV3 ∅ [sample_empty_record]) "v4.1"
    = Some [(Some (VStr ""), Some (VStr ""))].
Proof. split; [by vm_compute|]. split; by vm_compute. Qed.

Lemma stage2_keeps_exactly_witness :
  ∃ v41,
    uigf_v3_to_v41 (UigfV3 ∅ [sample_empty_record; ∅]) "v4.1" = Some v41 ∧
    v41_list v41 ≡ₚ omap v41_entry [sample_empty_record; ∅].
Proof.
  destruct stage2_keeps_exactly as (_ & H2 & H3).
  destruct (H3 (UigfV3 ∅ [sample_empty_record; ∅]) "v4.1") as [v41 E].
  { repeat constructor.
    - intros _. by exists "".
    - intros (_ & Ht & _). by inversion Ht. }
  exists v41. split; [done|]. exact (H2 _ _ _ E).
Defined.



(** C10 on the sample export, whose English name table knows Mika: the
    table is fetched, under another key, and the records still carry 0. *)
Lemma item_id_always_zero_witness :
  fetch_apis_parallel sample_fetch !! "uigf_dict_en"
    = Some (DObj [("Mika", BVal (VInt 10000080))]) ∧
  ∃ v3 m,
    sample_run = Some (v3, m) ∧
    ∀ e, e ∈ v3_list v3 → e !! "item_id" = Some (VStr "0").
Proof.
  split; [by vm_compute|].
  pose proof sample_run_returns as Hret.
  destruct sample_run as [[v3 m]|] eqn:E; [clear Hret|discriminate Hret].
  exists v3, m. split; [done|].
  exact (proj2 (proj2 (item_id_always_zero sample_strptime_ok sample_dict_repr
           sample_fetch 1700000000 "2023-11-14 22:13:20" 1700000000
           sample_export "PMOE-Local-Converter" "1.0.2" ∅)) v3 m E).
Defined.

(** * Further properties of the pipeline *)

(** ** Precedence of the catalogue in [resolve_item_name] *)

(** X1.  An English name of the catalogue that is a non-empty string is
    the English name [resolve_item_name] returns, whatever the raw name,
    the translation tables and the locale hold; the function returns. *)
Theorem resolve_catalog_english_wins pmoe_id raw_name
    (pmoe_dict : gmap string obj) gd_maps locale (entry : obj) s :
  pmoe_dict !! pmoe_id = Some entry →
  entry !! "name_en" = Some (VStr s) →
  s ≠ "" →
  ∃ jp, resolve_item_name pmoe_id raw_name pmoe_dict gd_maps locale
        = Some (VStr s, jp).
Proof.
  intros Hentry Hname Hs.
  destruct (resolve_item_name_unfold pmoe_id raw_name pmoe_dict gd_maps locale)
    as (d & Hd & Hres). cbn zeta in Hres. rewrite Hres. clear Hres.
  assert ((get_item_names_from_pmoe_id pmoe_id pmoe_dict).1 = VStr s) as Hen0.
  { unfold get_item_names_from_pmoe_id. rewrite Hentry.
    change (default ∅ (Some entry)) with entry. cbn [fst]. unfold get, py_or.
    rewrite Hname. change (default VNone (Some (VStr s))) with (VStr s).
    by rewrite (proj2 (truthy_str s) Hs). }
  pose proof (proj2 (truthy_str s) Hs) as Ht.
  rewrite Hen0. unfold english_name. rewrite Ht.
  destruct (truthy (get_item_names_from_pmoe_id pmoe_id pmoe_dict).2) eqn:Ejp.
  - cbn [negb mbind option_bind andb]. rewrite Ht. cbn [negb andb]. by eexists.
  - cbn [negb].
    destruct (translate_loop_strings (default ∅ (gd_maps !! "en_to_ja"))
                (default ∅ (gd_maps !! "en_to_ja_norm"))
                [s; d; raw_name] _ Ejp) as (jp & Hjp & _).
    change (VStr <$> [s; d; raw_name]) with [VStr s; VStr d; VStr raw_name] in Hjp.
    rewrite Hjp. cbn [mbind option_bind]. rewrite Ht. cbn [negb andb]. by eexists.
Qed.

Lemma resolve_catalog_english_wins_witness :
  ∃ jp, resolve_item_name "aqua_simulacra" "Aqua"
          {[ "aqua_simulacra" := {[ "name_en" := VStr "Aqua Simulacra" ]} ]}
          sample_gd_maps (VStr "ja")
        = Some (VStr "Aqua Simulacra", jp).
Proof.
  apply (resolve_catalog_english_wins "aqua_simulacra" "Aqua"
           {[ "aqua_simulacra" := {[ "name_en" := VStr "Aqua Simulacra" ]} ]}
           sample_gd_maps (VStr "ja") {[ "name_en" := VStr "Aqua Simulacra" ]}
           "Aqua Simulacra"); [reflexivity|reflexivity|done].
Defined.

(** X2.  A localized name of the catalogue that is not empty is returned
    as it is: no translation table is consulted, so the result is the same
    for all tables, and the function returns even when the catalogue's
    English name is not a string. *)
Theorem resolve_catalog_localized_wins pmoe_id raw_name
    (pmoe_dict : gmap string obj) gd_maps locale (entry : obj) v :
  pmoe_dict !! pmoe_id = Some entry →
  entry !! "name_jp" = Some v →
  truthy v = true →
  (∃ en, resolve_item_name pmoe_id raw_name pmoe_dict gd_maps locale = Some (en, v)) ∧
  ∀ gd_maps',
    resolve_item_name pmoe_id raw_name pmoe_dict gd_maps' locale =
    resolve_item_name pmoe_id raw_name pmoe_dict gd_maps locale.
Proof.
  intros Hentry Hname Hv.
  assert ((get_item_names_from_pmoe_id pmoe_id pmoe_dict).2 = v) as Hjp0.
  { unfold get_item_names_from_pmoe_id. rewrite Hentry.
    change (default ∅ (Some entry)) with entry. cbn [snd]. unfold get_or.
    by rewrite Hname. }
  assert (∀ gd, ∃ d,
    resolve_item_name pmoe_id raw_name pmoe_dict gd locale =
      Some (english_name (get_item_names_from_pmoe_id pmoe_id pmoe_dict).1 d raw_name, v)
    ∧ english_from_pmoe_id (VStr pmoe_id) = Some d) as Hall.
  { intros gd.
    destruct (resolve_item_name_unfold pmoe_id raw_name pmoe_dict gd locale)
      as (d & Hd & Hres). cbn zeta in Hres. exists d. split; [|done].
    rewrite Hres, Hjp0, Hv. cbn [negb mbind option_bind].
    rewrite Hv. cbn [negb]. by rewrite andb_false_r. }
  split.
  - destruct (Hall gd_maps) as (d & -> & _). by eexists.
  - intros gd'. destruct (Hall gd_maps) as (d & -> & Hd).
    destruct (Hall gd') as (d' & -> & Hd'). congruence.
Qed.

Lemma resolve_catalog_localized_wins_witness :
  (∃ en, resolve_item_name "mika" "Mika"
           {[ "mika" := {[ "name_en" := VInt 7; "name_jp" := VStr "ミカ" ]} ]}
           sample_gd_maps (VStr "ja") = Some (en, VStr "ミカ")) ∧
  ∀ gd_maps',
    resolve_item_name "mika" "Mika"
      {[ "mika" := {[ "name_en" := VInt 7; "name_jp" := VStr "ミカ" ]} ]}
      gd_maps' (VStr "ja") =
    resolve_item_name "mika" "Mika"
      {[ "mika" := {[ "name_en" := VInt 7; "name_jp" := VStr "ミカ" ]} ]}
      sample_gd_maps (VStr "ja").
Proof.
  apply (resolve_catalog_localized_wins "mika" "Mika"
           {[ "mika" := {[ "name_en" := VInt 7; "name_jp" := VStr "ミカ" ]} ]}
           sample_gd_maps (VStr "ja")
           {[ "name_en" := VInt 7; "name_jp" := VStr "ミカ" ]} (VStr "ミカ"));
    reflexivity.
Defined.

(** ** Overrides applied twice *)

Lemma override_field_idemp (override : obj) key current :
  override_field override key (override_field override key current)
  = override_field override key current.
Proof. unfold override_field. by destruct (truthy (get override key)). Qed.

(** X3.  Applying the override table to a triple it has already been
    applied to changes nothing. *)
Theorem apply_rank_override_idemp pmoe_id en jp rank (override_map : gmap string obj) :
  let r := apply_rank_override pmoe_id en jp rank override_map in
  apply_rank_override pmoe_id r.1.1 r.1.2 r.2 override_map = r.
Proof.
  unfold apply_rank_override. destruct (override_map !! pmoe_id) as [o|]; [|done].
  destruct (decide (o = ∅)); [done|]. cbn [fst snd].
  by rewrite !override_field_idemp.
Qed.

(** ** The records of the second stage *)

(** The member [k] of the record the second stage makes of [r]. *)
Definition v41_member (r : obj) (k : string) : option pyval :=
  let gacha_type := py_str (get_or r "gacha_type" (VStr "")) in
  if decide (k = "uigf_gacha_type") then
    Some (VStr (to_uigf_gacha_type
                  (py_str (get_or r "uigf_gacha_type" (VStr gacha_type)))))
  else if decide (k = "gacha_type") then Some (VStr gacha_type)
  else if decide (k = "item_id") then Some (VStr (py_str (get_or r "item_id" (VStr ""))))
  else if decide (k = "time") then Some (get r "time")
  else if decide (k = "id") then Some (VStr (py_str (get r "id")))
  else if decide (k = "count") then Some (VStr (py_str (get_or r "count" (VStr "1"))))
  else if decide (k = "name" ∨ k = "item_type" ∨ k = "rank_type") then
    match r !! k with
    | Some VNone | None => None
    | Some v => Some (VStr (py_str v))
    end
  else None.

Lemma copy_optional_member (r entry : obj) k' k :
  copy_optional r entry k' !! k =
    if decide (k' = k) then
      match r !! k with
      | Some VNone | None => entry !! k
      | Some v => Some (VStr (py_str v))
      end
    else entry !! k.
Proof.
  unfold copy_optional. destruct (decide (k' = k)) as [->|Hne].
  - destruct (r !! k) as [[]|]; by rewrite ?lookup_insert_eq.
  - destruct (r !! k') as [[]|]; by rewrite ?lookup_insert_ne.
Qed.

Lemma v41_entry_member r e : v41_entry r = Some e → ∀ k, e !! k = v41_member r k.
Proof.
  unfold v41_entry. case_match; [done|]. intros [= <-] k. cbn zeta. cbn [foldl].
  rewrite !copy_optional_member, !lookup_insert, lookup_singleton.
  unfold v41_member. cbn zeta.
  repeat (case_decide; simplify_eq; try done); try naive_solver.
Qed.

Lemma to_uigf_gacha_type_idemp g :
  to_uigf_gacha_type (to_uigf_gacha_type g) = to_uigf_gacha_type g.
Proof. unfold to_uigf_gacha_type. by repeat case_decide. Qed.

Lemma to_uigf_gacha_type_not_400 g : to_uigf_gacha_type g ≠ "400".
Proof. unfold to_uigf_gacha_type. by case_decide. Qed.

(** X4.  The second stage changes nothing in a record it has made: fed one
    of its own records, the loop body keeps it and returns it as it is. *)
Theorem v41_entry_idemp r e : v41_entry r = Some e → v41_entry e = Some e.
Proof.
  intros Hr. pose proof (v41_entry_member r e Hr) as He.
  assert (is_Some (v41_entry r)) as Hkept by by eexists.
  apply v41_entry_kept in Hkept as (Hg & [t Ht] & [i Hi]).
  destruct (proj2 (v41_entry_kept e)) as [e2 He2].
  { unfold v41_kept, get_or. rewrite !He. unfold v41_member. cbn zeta.
    split_and!; [done|by eexists..]. }
  rewrite He2. f_equal. apply map_eq. intros k.
  rewrite (v41_entry_member e e2 He2), He. unfold v41_member, get_or, get. cbn zeta.
  rewrite !He. unfold v41_member, get_or, get. cbn zeta.
  repeat (case_decide; simplify_eq; try done).
  - cbn [default from_option id py_str]. by rewrite to_uigf_gacha_type_idemp.
  - by destruct (r !! k) as [[]|].
Qed.

Lemma v41_entry_idemp_witness :
  ∃ e, v41_entry sample_empty_record = Some e ∧ v41_entry e = Some e.
Proof.
  destruct (proj2 (v41_entry_kept sample_empty_record)) as [e He].
  { split_and!; [done|by eexists..]. }
  exists e. split; [done|]. exact (v41_entry_idemp sample_empty_record e He).
Defined.

(** X5.  In the list the second stage returns, every record has the six
    members [uigf_gacha_type], [gacha_type], [item_id], [time], [id] and
    [count]; every member other than [time] is a string; and
    [uigf_gacha_type] is never 400. *)
Theorem v41_records_are_strings v3 version v41 :
  uigf_v3_to_v41 v3 version = Some v41 →
  ∀ e, e ∈ v41_list v41 →
    (∀ k, k ∈ ["uigf_gacha_type"; "gacha_type"; "item_id"; "time"; "id"; "count"] →
          is_Some (e !! k)) ∧
    (∀ k v, e !! k = Some v → k = "time" ∨ ∃ s, v = VStr s) ∧
    e !! "uigf_gacha_type" ≠ Some (VStr "400").
Proof.
  unfold uigf_v3_to_v41.
  destruct (sort_by _ _ _) as [sorted|] eqn:Hs; [|done].
  cbn [mbind option_bind]. intros [= <-] e He. cbn [v41_list] in He.
  destruct (sort_records_spec _ _ Hs (v41_entries_id _)) as [Hp _].
  rewrite Hp in He. apply list_elem_of_omap in He as (r & _ & Hr).
  pose proof (v41_entry_member r e Hr) as Hm. split_and!.
  - intros k Hk. rewrite Hm. unfold v41_member. cbn zeta.
    repeat (apply elem_of_cons in Hk as [->|Hk]; [by eexists|]).
    by apply elem_of_nil in Hk.
  - intros k v. rewrite Hm. unfold v41_member. cbn zeta.
    repeat (case_decide; [first [by left | intros [= <-]; right; by eexists]|]).
    case_decide; [|done]. destruct (r !! k) as [[]|]; try done;
      intros [= <-]; right; by eexists.
  - rewrite Hm. unfold v41_member. cbn zeta. intros [= H].
    by apply to_uigf_gacha_type_not_400 in H.
Qed.

Lemma v41_records_are_strings_witness :
  ∃ v41, uigf_v3_to_v41 (UigfV3 ∅ [sample_empty_record; ∅]) "v4.1" = Some v41 ∧
  ∀ e, e ∈ v41_list v41 →
    (∀ k, k ∈ ["uigf_gacha_type"; "gacha_type"; "item_id"; "time"; "id"; "count"] →
          is_Some (e !! k)) ∧
    (∀ k v, e !! k = Some v → k = "time" ∨ ∃ s, v = VStr s) ∧
    e !! "uigf_gacha_type" ≠ Some (VStr "400").
Proof.
  pose proof (eq_refl : returned (uigf_v3_to_v41 (UigfV3 ∅ [sample_empty_record; ∅]) "v4.1") = true)
    as Hret.
  destruct (uigf_v3_to_v41 (UigfV3 ∅ [sample_empty_record; ∅]) "v4.1") as [v41|] eqn:E;
    [clear Hret|discriminate Hret].
  exists v41. split; [done|].
  exact (v41_records_are_strings (UigfV3 ∅ [sample_empty_record; ∅]) "v4.1" v41 E).
Defined.

(** * Further properties of the rank tool *)

(** ** The items taken from the list of unranked items *)

Definition extract_step (acc : gset pyval * list obj) (item : obj)
    : gset pyval * list obj :=
  let pmoe_id := get item "pmoe_id" in
  if truthy pmoe_id && negb (bool_decide (pmoe_id ∈ acc.1))
  then ({[pmoe_id]} ∪ acc.1, acc.2 ++ [item])
  else acc.

Definition ids_of (items : list obj) : list pyval :=
  (λ it, get it "pmoe_id") <$> items.

(** What the loop of [extract_items_from_missing] keeps true. *)
Lemma extract_fold items :
  let acc := foldl extract_step (∅, []) items in
  (∀ v, v ∈ acc.1 ↔ v ∈ ids_of acc.2) ∧
  acc.2 `sublist_of` items ∧
  NoDup (ids_of acc.2) ∧
  Forall (λ it, truthy (get it "pmoe_id") = true) acc.2 ∧
  (∀ it, it ∈ items → truthy (get it "pmoe_id") = true → get it "pmoe_id" ∈ acc.1).
Proof.
  induction items as [|item items IH] using rev_ind.
  - cbn. split_and!; [set_solver|done|constructor|constructor|set_solver].
  - cbn zeta in *. rewrite foldl_snoc.
    destruct (foldl extract_step (∅, []) items) as [seen unique].
    cbn [fst snd] in IH. destruct IH as (Hseen & Hsub & Hnd & Ht & Hall).
    unfold extract_step. cbn [fst snd].
    destruct (truthy (get item "pmoe_id")) eqn:Hk; cbn [andb].
    + case_bool_decide as Hin; cbn [negb fst snd].
      * split_and!; [done|by apply sublist_inserts_r|done|done|].
        intros it [Hit|Heq%list_elem_of_singleton]%elem_of_app ?; [by apply Hall|by subst].
      * unfold ids_of in *. rewrite fmap_app. cbn [fmap list_fmap]. split_and!.
        -- intros v. rewrite elem_of_union, elem_of_singleton, elem_of_app,
             list_elem_of_singleton, Hseen. tauto.
        -- by apply sublist_app.
        -- apply NoDup_app. split_and!; [done| |apply NoDup_singleton].
           intros v Hv Heq%list_elem_of_singleton. subst. apply Hin. by apply Hseen.
        -- apply Forall_app. split; [done|]. by constructor.
        -- intros it [Hit|Heq%list_elem_of_singleton]%elem_of_app ?.
           ++ apply elem_of_union_r. by apply Hall.
           ++ subst. apply elem_of_union_l. by apply elem_of_singleton.
    + cbn [fst snd]. split_and!; [done|by apply sublist_inserts_r|done|done|].
      intros it [Hit|Heq%list_elem_of_singleton]%elem_of_app ?; [by apply Hall|congruence].
Qed.

(** X6.  The items [extract_items_from_missing] returns are items of its
    input, in the order of the input; each has an identifier that is not
    falsy; no two have the same identifier; and every identifier of the
    input that is not falsy is the identifier of a returned item. *)
Theorem extract_items_unique items :
  let out := extract_items_from_missing items in
  out `sublist_of` items ∧
  Forall (λ it, truthy (get it "pmoe_id") = true) out ∧
  NoDup (ids_of out) ∧
  ∀ it, it ∈ items → truthy (get it "pmoe_id") = true →
        get it "pmoe_id" ∈ ids_of out.
Proof.
  destruct (extract_fold items) as (Hseen & Hsub & Hnd & Ht & Hall).
  cbn zeta in *. unfold extract_items_from_missing.
  change (foldl _ (∅, []) items) with (foldl extract_step (∅, []) items).
  split_and!; try done. intros it Hit Hk. apply Hseen. by apply Hall.
Qed.

(** ** The file to fill in *)

Lemma build_override_entry_fields item :
  get (build_override_entry item) "pmoe_id" = get item "pmoe_id" ∧
  get (build_override_entry item) "rank_type" = VStr "".
Proof.
  destruct (get_entry_fields (get item "pmoe_id") (get item "name_en")
              (get item "name_jp") (get item "gacha_type") (VStr ""))
    as (H1 & _ & _ & _ & H5). done.
Qed.

Lemma ids_of_build items : ids_of (build_override_entry <$> items) = ids_of items.
Proof.
  unfold ids_of. rewrite <-list_fmap_compose. apply list_fmap_ext.
  intros i x _. apply build_override_entry_fields.
Qed.

Lemma elem_of_existing_ids items k :
  k ∈ get_existing_pmoe_ids items ↔ truthy k = true ∧ k ∈ ids_of items.
Proof.
  unfold get_existing_pmoe_ids. rewrite elem_of_list_to_set, list_elem_of_filter. done.
Qed.

(** X7.  Every entry [cmd_todo] writes has an empty rank and an identifier
    that is not falsy and is the identifier of no item of the table; no two
    entries have the same identifier; and every identifier of the list of
    unranked items that is not falsy and not in the table has its entry.
    With an empty table, [cmd_todo] writes what [cmd_init] writes. *)
Theorem cmd_todo_new_items missing_items override_items :
  let out := cmd_todo missing_items override_items in
  Forall (λ e, get e "rank_type" = VStr "" ∧
               truthy (get e "pmoe_id") = true ∧
               get e "pmoe_id" ∉ ids_of override_items) out ∧
  NoDup (ids_of out) ∧
  (∀ it, it ∈ missing_items → truthy (get it "pmoe_id") = true →
         get it "pmoe_id" ∉ ids_of override_items →
         get it "pmoe_id" ∈ ids_of out) ∧
  cmd_todo missing_items [] = cmd_init missing_items.
Proof.
  assert (let out := extract_items_from_missing missing_items in
          Forall (λ it, truthy (get it "pmoe_id") = true) out ∧
          NoDup (ids_of out) ∧
          ∀ it, it ∈ missing_items → truthy (get it "pmoe_id") = true →
                get it "pmoe_id" ∈ ids_of out) as (Ht & Hnd & Hall).
  { destruct (extract_fold missing_items) as (Hseen & _ & Hnd & Ht & Hall).
    cbn zeta in *. unfold extract_items_from_missing.
    change (foldl _ (∅, []) missing_items)
      with (foldl extract_step (∅, []) missing_items).
    split_and!; try done. intros it Hit Hk. apply Hseen. by apply Hall. }
  cbn zeta in *. unfold cmd_todo, cmd_init. cbn zeta. split_and!.
  - apply Forall_fmap, Forall_forall. intros it [Hnew Hit]%list_elem_of_filter.
    rewrite Forall_forall in Ht. cbn.
    destruct (build_override_entry_fields it) as [-> ->].
    split_and!; [done|by apply Ht|].
    intros Hin. apply Hnew. apply elem_of_existing_ids. split; [by apply Ht|done].
  - rewrite ids_of_build. unfold ids_of.
    eapply sublist_NoDup; [exact Hnd|]. apply fmap_sublist, sublist_filter.
  - intros it Hit Hk Hnew. rewrite ids_of_build.
    specialize (Hall it Hit Hk). unfold ids_of in *.
    apply list_elem_of_fmap in Hall as (it' & Heq & Hit').
    apply list_elem_of_fmap. exists it'. split; [done|].
    apply list_elem_of_filter. split; [|done].
    rewrite <-Heq. intros Hin. apply elem_of_existing_ids in Hin as [_ Hin]. done.
  - f_equal. clear. induction (extract_items_from_missing missing_items) as [|it l IH]; [done|].
    rewrite filter_cons, IH. destruct (decide _) as [|Hin]; [done|]. destruct Hin.
    intros Hin. by apply elem_of_existing_ids in Hin as [_ Hin%elem_of_nil].
Qed.

(** ** The loop of [cmd_merge] on any batch *)

(** The rank of a batch entry is absent, [null] or blank. *)
Definition blank_rank (it : obj) : Prop :=
  get it "rank_type" = VNone ∨ strip (py_str (get it "rank_type")) = "".

Lemma merge_override_entry_blank it ex :
  blank_rank it → merge_override_entry it ex = ex.
Proof.
  intros Hb. unfold merge_override_entry. cbn zeta.
  destruct Hb as [Hb|Hb].
  - by rewrite (bool_decide_true _ Hb).
  - rewrite (bool_decide_true (strip _ = "") Hb). by rewrite orb_true_r.
Qed.

Lemma blank_or_nonblank it : blank_rank it ∨ nonblank_rank it.
Proof.
  unfold blank_rank, nonblank_rank.
  destruct (decide (get it "rank_type" = VNone)); [by left; left|].
  destruct (decide (strip (py_str (get it "rank_type")) = "")); [by left; right|].
  by right.
Qed.

Lemma get_empty k : get (∅ : obj) k = VNone.
Proof. unfold get. by rewrite lookup_empty. Qed.

(** One step of the loop writes at most the entry of the identifier of the
    batch entry. *)
Lemma merge_step_other st it k :
  k ≠ get it "pmoe_id" →
  override_map (merge_step st it) !! k = override_map st !! k.
Proof.
  intros Hne. unfold merge_step. cbn zeta.
  destruct (truthy (get it "pmoe_id")); cbn [negb]; [|done].
  destruct (truthy (get (merge_override_entry it _) "rank_type")); cbn [negb]; [|done].
  cbn [override_map]. by rewrite lookup_insert_ne.
Qed.

(** One step of the loop on an entry without a rank changes no entry of the
    table and adds none. *)
Lemma merge_step_blank st it :
  blank_rank it →
  override_map (merge_step st it) = override_map st ∧
  added_count (merge_step st it) = added_count st.
Proof.
  intros Hb. unfold merge_step. cbn zeta. rewrite merge_override_entry_blank by done.
  destruct (truthy (get it "pmoe_id")); cbn [negb]; [|done].
  unfold has_key. destruct (override_map st !! get it "pmoe_id") as [e|] eqn:He.
  - change (default ∅ (Some e)) with e.
    destruct (truthy (get e "rank_type")); cbn [negb]; [|done].
    cbn [override_map added_count]. split; [|done]. by apply insert_id.
  - change (default ∅ None) with (∅ : obj). by rewrite get_empty.
Qed.

Lemma merge_step_filed st it :
  filed (override_map st) → filed (override_map (merge_step st it)).
Proof.
  intros Hst. destruct (blank_or_nonblank it) as [Hb|Hnb].
  - by rewrite (proj1 (merge_step_blank st it Hb)).
  - rewrite merge_step_nonblank by done.
    destruct (truthy (get it "pmoe_id")) eqn:Hk; [|done].
    cbn [override_map]. intros k it'.
    destruct (decide (get it "pmoe_id" = k)) as [<-|Hne].
    + rewrite lookup_insert_eq. intros [= <-]. split; [|done]. by apply merged_pmoe_id.
    + rewrite lookup_insert_ne by done. apply Hst.
Qed.

Lemma merge_fold_filed_any batch st :
  filed (override_map st) → filed (override_map (foldl merge_step st batch)).
Proof.
  revert st. induction batch as [|it batch IH]; intros st Hst; [done|].
  cbn [foldl]. by apply IH, merge_step_filed.
Qed.

Lemma merge_fold_blank batch st :
  Forall blank_rank batch →
  override_map (foldl merge_step st batch) = override_map st ∧
  added_count (foldl merge_step st batch) = added_count st.
Proof.
  intros Hb. revert st. induction Hb as [|it batch Hit _ IH]; intros st; [done|].
  cbn [foldl]. destruct (IH (merge_step st it)) as [-> ->].
  by apply merge_step_blank.
Qed.

(** X8.  A batch whose entries all lack a rank (absent, [null] or blank)
    changes nothing in the table: [cmd_merge] writes the items it writes
    for the empty batch, reports no entry added, and raises exactly when the
    merge of the empty batch does. *)
Theorem cmd_merge_blank_batch override_items batch :
  Forall blank_rank batch →
  fst <$> cmd_merge override_items batch = fst <$> cmd_merge override_items [].
Proof.
  intros Hb. unfold cmd_merge. cbn zeta. cbn [foldl].
  destruct (merge_fold_blank batch (MergeState (index_items override_items) 0 0) Hb)
    as [-> ->]. cbn [override_map added_count updated_count].
  by destruct (sort_keyed py_lt (map_to_list (index_items override_items))).
Qed.

Lemma cmd_merge_blank_batch_witness :
  fst <$> cmd_merge [ {[ "pmoe_id" := VStr "X"; "rank_type" := VStr "5" ]} ]
                    [ {[ "pmoe_id" := VStr "X"; "rank_type" := VStr " " ]};
                      {[ "pmoe_id" := VStr "Y" ]} ]
  = fst <$> cmd_merge [ {[ "pmoe_id" := VStr "X"; "rank_type" := VStr "5" ]} ] [].
Proof.
  apply (cmd_merge_blank_batch
           [ {[ "pmoe_id" := VStr "X"; "rank_type" := VStr "5" ]} ]
           [ {[ "pmoe_id" := VStr "X"; "rank_type" := VStr " " ]};
             {[ "pmoe_id" := VStr "Y" ]} ]).
  constructor; [by right|]. constructor; [by left|]. constructor.
Defined.

(** The keys of the dictionary [cmd_merge] builds are the identifiers
    [get_existing_pmoe_ids] returns. *)
Lemma index_items_dom items k :
  is_Some (index_items items !! k) ↔ k ∈ get_existing_pmoe_ids items.
Proof.
  rewrite elem_of_existing_ids. unfold index_items, ids_of.
  induction items as [|it items IH] using rev_ind.
  - cbn. rewrite lookup_empty, elem_of_nil. split; [by intros [??]|tauto].
  - rewrite foldl_snoc, fmap_app, elem_of_app. cbn [fmap list_fmap].
    rewrite list_elem_of_singleton. cbn zeta.
    destruct (truthy (get it "pmoe_id")) eqn:Hk.
    + destruct (decide (get it "pmoe_id" = k)) as [<-|Hne].
      * rewrite lookup_insert_eq. split; [auto|by eexists].
      * rewrite lookup_insert_ne, IH by done. split; [tauto|].
        intros [? [?|?]]; [done|congruence].
    + rewrite IH. split; [tauto|]. intros [? [?|?]]; [done|congruence].
Qed.

Lemma merge_fold_new_blank l st :
  Forall (λ e, blank_rank e ∧ override_map st !! get e "pmoe_id" = None) l →
  foldl merge_step st l = st.
Proof.
  induction 1 as [|e l [Hb Hnew] _ IH]; [done|]. cbn [foldl].
  assert (merge_step st e = st) as ->; [|done].
  unfold merge_step. cbn zeta. rewrite merge_override_entry_blank by done.
  destruct (truthy (get e "pmoe_id")); cbn [negb]; [|done].
  rewrite Hnew. change (default ∅ None) with (∅ : obj). by rewrite get_empty.
Qed.

(** X9.  The file [cmd_todo] writes, merged before any rank is filled in,
    changes nothing: [cmd_merge] does what it does for the empty batch, and
    reports no entry added and none updated. *)
Theorem cmd_merge_unfilled_todo missing_items override_items :
  cmd_merge override_items (cmd_todo missing_items override_items)
  = cmd_merge override_items [].
Proof.
  unfold cmd_merge. cbn zeta. cbn [foldl].
  rewrite merge_fold_new_blank; [done|]. cbn [override_map].
  unfold cmd_todo. cbn zeta. apply Forall_fmap, Forall_forall.
  intros it [Hnew _]%list_elem_of_filter. cbn.
  destruct (build_override_entry_fields it) as [-> Hrank]. split.
  - right. by rewrite Hrank.
  - apply eq_None_not_Some. by rewrite index_items_dom.
Qed.

(** ** The table [cmd_merge] writes *)

(** The identifier of [a] is smaller than the identifier of [b]. *)
Definition id_lt (a b : obj) : Prop :=
  py_lt (get a "pmoe_id") (get b "pmoe_id") = Some true.

Definition py_le (a b : pyval) : Prop := py_lt a b = Some true ∨ a = b.

Lemma py_lt_le a b : py_lt a b = Some true → py_le a b.
Proof. by left. Qed.

Lemma py_lt_ge a b : py_lt a b = Some false → py_le b a.
Proof.
  intros H. destruct (decide (a = b)) as [->|Hne]; [by right|].
  left. by apply py_lt_false.
Qed.

Lemma sorted_values_id_lt (r : list (pyval * obj)) :
  Sorted (λ a b : pyval * obj, py_le a.1 b.1) r →
  NoDup r.*1 →
  Forall (λ p, get p.2 "pmoe_id" = p.1) r →
  Sorted id_lt r.*2.
Proof.
  induction 1 as [|p r Hs IH Hd]; intros Hnd Hid; [constructor|].
  cbn [fmap list_fmap] in *. apply NoDup_cons in Hnd as [Hp Hnd].
  apply Forall_cons in Hid as [Hpid Hid].
  constructor; [by apply IH|].
  destruct Hd as [|q r' Hpq]; cbn [fmap list_fmap]; constructor.
  apply Forall_cons in Hid as [Hqid _]. unfold id_lt. rewrite Hpid, Hqid.
  destruct Hpq as [Hlt|Heq]; [done|].
  destruct Hp. cbn [fmap list_fmap]. rewrite Heq. by left.
Qed.

(** The table after the loop of [cmd_merge], whatever the batch holds. *)
Lemma cmd_merge_table override_items batch new_items added updated :
  cmd_merge override_items batch = Some (new_items, added, updated) →
  let m := override_map (foldl merge_step
                           (MergeState (index_items override_items) 0 0) batch) in
  ∃ r, sort_keyed py_lt (map_to_list m) = Some r ∧ new_items = r.*2 ∧
       r ≡ₚ map_to_list m ∧ filed m.
Proof.
  unfold cmd_merge. cbn zeta.
  destruct (sort_keyed py_lt _) as [r|] eqn:Hs; [|done].
  cbn [mbind option_bind]. intros [= <- _ _]. exists r. split_and!; [done|done| |].
  - by apply sort_keyed_perm in Hs.
  - apply merge_fold_filed_any. cbn [override_map]. apply index_items_filed.
Qed.

(** X10.  The table [cmd_merge] writes is in strictly increasing order of
    identifier; every item has an identifier that is not falsy and no two
    have the same; and merging the empty batch into the written table
    writes it again as it is, with nothing added and nothing updated. *)
Theorem cmd_merge_sorted override_items batch new_items added updated :
  cmd_merge override_items batch = Some (new_items, added, updated) →
  Sorted id_lt new_items ∧
  NoDup (ids_of new_items) ∧
  Forall (λ it, truthy (get it "pmoe_id") = true) new_items ∧
  cmd_merge new_items [] = Some (new_items, 0, 0).
Proof.
  intros Hm. destruct (cmd_merge_table _ _ _ _ _ Hm) as (r & Hs & -> & Hp & Hf).
  assert (Forall (λ p : pyval * obj, get p.2 "pmoe_id" = p.1 ∧ truthy p.1 = true) r)
    as Hid.
  { apply Forall_forall. intros [k it] Hin. rewrite Hp in Hin.
    apply elem_of_map_to_list in Hin. by apply Hf. }
  assert (NoDup r.*1) as Hnd by (rewrite Hp; apply NoDup_fst_map_to_list).
  assert (ids_of r.*2 = r.*1) as Hids.
  { unfold ids_of. rewrite <-list_fmap_compose. apply Forall_fmap_ext_1.
    eapply Forall_impl; [exact Hid|]. by intros p [? _]. }
  split_and!.
  - apply sorted_values_id_lt; [|done|].
    + eapply (sort_keyed_sorted py_lt py_le py_lt_le py_lt_ge). exact Hs.
    + eapply Forall_impl; [exact Hid|]. by intros p [? _].
  - by rewrite Hids.
  - apply Forall_fmap. eapply Forall_impl; [exact Hid|].
    intros p [Hp1 Hp2]. cbn. by rewrite Hp1.
  - unfold cmd_merge. cbn zeta. cbn [foldl override_map added_count updated_count].
    rewrite (index_items_sorted _ r Hf Hp), Hs. done.
Qed.

Lemma cmd_merge_sorted_witness :
  ∃ new_items added updated,
    cmd_merge [] sample_batch = Some (new_items, added, updated) ∧
    Sorted id_lt new_items ∧
    NoDup (ids_of new_items) ∧
    Forall (λ it, truthy (get it "pmoe_id") = true) new_items ∧
    cmd_merge new_items [] = Some (new_items, 0, 0).
Proof.
  pose proof sample_merge_returns as Hret.
  destruct (cmd_merge [] sample_batch) as [[[t a] u]|] eqn:E;
    [clear Hret|discriminate Hret].
  exists t, a, u. split; [done|].
  exact (cmd_merge_sorted [] sample_batch t a u E).
Defined.

(** ** When [cmd_merge] returns *)

(** The identifier of [it] is falsy or a string. *)
Definition string_id (it : obj) : Prop :=
  truthy (get it "pmoe_id") = true → ∃ s, get it "pmoe_id" = VStr s.

Definition string_keys (m : gmap pyval obj) : Prop :=
  ∀ k, is_Some (m !! k) → ∃ s, k = VStr s.

Lemma index_items_string_keys items :
  Forall string_id items → string_keys (index_items items).
Proof.
  intros Hall k Hk. apply index_items_dom, elem_of_existing_ids in Hk as [Ht Hk].
  unfold ids_of in Hk. apply list_elem_of_fmap in Hk as (it & -> & Hit).
  rewrite Forall_forall in Hall. by apply Hall.
Qed.

Lemma merge_step_string_keys st it :
  string_id it → string_keys (override_map st) →
  string_keys (override_map (merge_step st it)).
Proof.
  intros Hit Hst k. destruct (decide (k = get it "pmoe_id")) as [->|Hne].
  - destruct (truthy (get it "pmoe_id")) eqn:Ht; [intros _; by apply Hit|].
    unfold merge_step. cbn zeta. rewrite Ht. cbn [negb]. apply Hst.
  - rewrite merge_step_other by done. apply Hst.
Qed.

Lemma merge_fold_string_keys batch st :
  Forall string_id batch → string_keys (override_map st) →
  string_keys (override_map (foldl merge_step st batch)).
Proof.
  intros Hall. revert st. induction Hall as [|it batch Hit _ IH]; intros st Hst; [done|].
  cbn [foldl]. by apply IH, merge_step_string_keys.
Qed.

(** X11.  [cmd_merge] returns when every identifier of the table and of
    the batch that is not falsy is a string: its sort raises for no such
    input. *)
Theorem cmd_merge_returns override_items batch :
  Forall string_id override_items → Forall string_id batch →
  is_Some (cmd_merge override_items batch).
Proof.
  intros Hov Hb. unfold cmd_merge. cbn zeta.
  destruct (sort_keyed_total py_lt
              (map_to_list (override_map
                 (foldl merge_step (MergeState (index_items override_items) 0 0) batch))))
    as [r ->]; [|by eexists].
  intros [k1 e1] [k2 e2] H1%elem_of_map_to_list H2%elem_of_map_to_list.
  pose proof (merge_fold_string_keys batch
                (MergeState (index_items override_items) 0 0) Hb
                (index_items_string_keys override_items Hov)) as Hkeys.
  destruct (Hkeys k1) as [s1 ->]; [by eexists|].
  destruct (Hkeys k2) as [s2 ->]; [by eexists|]. by eexists.
Qed.

Lemma cmd_merge_returns_witness : is_Some (cmd_merge [] sample_batch).
Proof.
  apply (cmd_merge_returns [] sample_batch).
  - constructor.
  - constructor; [intros _; by exists "X"|].
    constructor; [intros _; by exists "X"|]. constructor.
Defined.

(** ** From the merged table to the pipeline *)

Lemma merge_fold_other batch st k :
  Forall (λ j, get j "pmoe_id" ≠ k) batch →
  override_map (foldl merge_step st batch) !! k = override_map st !! k.
Proof.
  intros Hall. revert st. induction Hall as [|j batch Hj _ IH]; intros st; [done|].
  cbn [foldl]. rewrite IH. by apply merge_step_other.
Qed.

(** X12.  A rank filled in for an identifier is what the pipeline loads
    after the merge: when [it] is the last entry of the batch for its
    identifier and has a rank, written in ASCII, the table
    [load_rank_override] builds from the items [cmd_merge] wrote has, under
    that identifier, an entry with that identifier and with the string form
    of that rank. *)
Theorem merged_rank_is_loaded override_items before it after new_items added updated :
  cmd_merge override_items (before ++ it :: after) = Some (new_items, added, updated) →
  truthy (get it "pmoe_id") = true →
  ascii_rank it →
  nonblank_rank it →
  Forall (λ j, get j "pmoe_id" ≠ get it "pmoe_id") after →
  ∃ e, load_rank_override (Some new_items) !! get it "pmoe_id" = Some e ∧
       get e "pmoe_id" = get it "pmoe_id" ∧
       get e "rank_type" = VStr (py_str (get it "rank_type")).
Proof.
  intros Hm Hk _ Hnb Hafter.
  destruct (cmd_merge_table _ _ _ _ _ Hm) as (r & Hs & -> & Hp & Hf).
  cbn zeta in *. unfold load_rank_override.
  change (foldl _ ∅ r.*2) with (index_items r.*2).
  rewrite (index_items_sorted _ r Hf Hp).
  rewrite foldl_app. cbn [foldl]. rewrite merge_fold_other by done.
  rewrite merge_step_nonblank, Hk by done. cbn [override_map].
  rewrite lookup_insert_eq. eexists. split; [done|].
  rewrite merge_override_entry_nonblank by done.
  match goal with
  | |- get {[ "pmoe_id" := ?p; "name_en" := ?a; "name_jp" := ?b;
              "gacha_type" := ?c; "rank_type" := ?d ]} _ = _ ∧ _ =>
      destruct (get_entry_fields p a b c d) as (H1 & _ & _ & _ & H5)
  end.
  by split.
Qed.

Lemma merged_rank_is_loaded_witness :
  ∃ new_items added updated e,
    cmd_merge [] sample_batch = Some (new_items, added, updated) ∧
    load_rank_override (Some new_items) !! VStr "X" = Some e ∧
    get e "pmoe_id" = VStr "X" ∧
    get e "rank_type" = VStr "4".
Proof.
  pose proof sample_merge_returns as Hret.
  destruct (cmd_merge [] sample_batch) as [[[t a] u]|] eqn:E;
    [clear Hret|discriminate Hret].
  destruct (merged_rank_is_loaded []
              [ {[ "pmoe_id" := VStr "X"; "rank_type" := VStr "5" ]} ]
              {[ "pmoe_id" := VStr "X"; "name_en" := VStr "Foo"; "rank_type" := VInt 4 ]}
              [] t a u E) as (e & H1 & H2 & H3).
  - reflexivity.
  - reflexivity.
  - split; [done|by vm_compute].
  - constructor.
  - exists t, a, u, e. exact (conj eq_refl (conj H1 (conj H2 H3))).
Defined.

(** * Further properties of the first stage *)

(** ** The loop over the pulls, in closed form *)

(** The identifier [paimon_to_uigf_v3] reads from a pull. *)
Definition pull_id (p : obj) : string := py_str (get_or p "id" (VStr "")).

(** The pulls of the banners of [GACHA_BANNER_TYPES], in the order the
    loops visit them. *)
Definition all_pulls (paimon_data : paimon_export) : list obj :=
  GACHA_BANNER_TYPES ≫= λ banner, default [] (counters paimon_data !! banner.1).

(** The rank of an item after the override table: the third component of
    [apply_rank_override], which does not depend on the names. *)
Definition final_rank (pmoe_dict rank_override_map : gmap string obj)
    (pmoe_id : string) : pyval :=
  (apply_rank_override pmoe_id VNone VNone
     (get_rank_from_pmoe_id pmoe_id pmoe_dict) rank_override_map).2.

Lemma apply_rank_override_rank pmoe_id en jp rank (ovr : gmap string obj) :
  (apply_rank_override pmoe_id en jp rank ovr).2
  = (apply_rank_override pmoe_id VNone VNone rank ovr).2.
Proof.
  unfold apply_rank_override. destruct (ovr !! pmoe_id) as [o|]; [|done].
  by destruct (decide (o = ∅)).
Qed.

Section first_stage.
Variable strptime_ok : string → bool.
Variable dict_repr : obj → string.

(** The test of [build_uigf_record] on the time of a pull. *)
Definition valid_time (p : obj) : bool :=
  let time_str := py_str (get_or p "time" (VStr "")) in
  truthy (VStr time_str) && strptime_ok time_str.

(** A record [build_uigf_record] makes for the banner code [g]. *)
Definition record_of (g : string) (e : obj) : Prop :=
  e !! "gacha_type" = Some (VStr g) ∧
  e !! "uigf_gacha_type" = Some (VStr (to_uigf_gacha_type g)) ∧
  e !! "count" = Some (VStr "1") ∧
  (∃ t, e !! "time" = Some (VStr t) ∧ t ≠ "" ∧ strptime_ok t = true) ∧
  (∃ i, e !! "id" = Some (VStr i)) ∧
  is_Some (e !! "name").

Lemma build_uigf_record_valid pull g pid en jp iid rank rid lang :
  match build_uigf_record strptime_ok pull g pid en jp iid rank rid lang with
  | Some e => valid_time pull = true ∧ record_of g e
  | None => valid_time pull = false
  end.
Proof.
  unfold build_uigf_record, valid_time, parse_time. cbn zeta.
  destruct (truthy (VStr (py_str (get_or pull "time" (VStr ""))))) eqn:Ht;
    cbn [negb orb andb]; [|done].
  destruct (strptime_ok (py_str (get_or pull "time" (VStr "")))) eqn:Hp;
    cbn [negb]; [|done].
  split; [done|]. apply truthy_str in Ht. unfold record_of.
  repeat match goal with |- context [if ?b then _ else _] => destruct b end;
    rewrite ?lookup_insert_ne by done;
    (split_and!; [reflexivity|reflexivity|reflexivity|by eexists|by eexists|by eexists]).
Qed.

(** One pull: the counter advances, the list grows by one record exactly
    when the time of the pull is valid, and the pull is filed as unranked
    exactly when its rank after the overrides is falsy. *)
Lemma process_pull_closed pd ud gd loc lang ovr g st p st' :
  process_pull strptime_ok dict_repr pd ud gd loc lang ovr g (Some st) p = Some st' →
  synth_id st' = (synth_id st + 1)%Z ∧
  (∃ es, uigf_list st' = uigf_list st ++ es ∧
         length es = (if valid_time p then 1 else 0) ∧
         Forall (record_of (py_str (VInt g))) es) ∧
  (∀ k, is_Some (missing_rank st' !! k) ↔
        is_Some (missing_rank st !! k) ∨
        (k = pull_id p ∧ truthy (final_rank pd ovr k) = false)).
Proof.
  unfold process_pull. cbn [mbind option_bind]. cbn zeta.
  fold (pull_id p).
  destruct (resolve_item_name _ _ _ _ _) as [[en jp]|]; cbn [mbind option_bind]; [|done].
  destruct (get_item_id_from_name dict_repr en ud) as [iid|];
    cbn [mbind option_bind]; [|done].
  match goal with |- context [mbind _ ?m] => destruct m as [iid'|] end;
    cbn [mbind option_bind]; [|done].
  pose proof (apply_rank_override_rank (pull_id p) en jp
                (get_rank_from_pmoe_id (pull_id p) pd) ovr) as Hrank.
  fold (final_rank pd ovr (pull_id p)) in Hrank.
  destruct (apply_rank_override _ _ _ _ _) as [[en' jp'] rank'].
  cbn [snd] in Hrank. subst rank'.
  intros [= <-]. cbn [synth_id uigf_list missing_rank]. split_and!; [done| |].
  - match goal with |- context [build_uigf_record ?a ?b ?c ?d ?e ?f ?g ?h ?i ?j] =>
      pose proof (build_uigf_record_valid b c d e f g h i j) as Hb;
      destruct (build_uigf_record a b c d e f g h i j) as [e0|] end.
    + destruct Hb as [-> Hrec]. exists [e0]. split_and!; [done|done|by constructor].
    + rewrite Hb. exists []. split_and!; [by rewrite app_nil_r|done|constructor].
  - intros k. destruct (truthy (final_rank pd ovr (pull_id p))) eqn:Hr; cbn [negb].
    + split; [by left|]. intros [?|[-> ?]]; [done|congruence].
    + destruct (decide (k = pull_id p)) as [->|Hne].
      * rewrite lookup_insert_eq. split; [by right|by eexists].
      * rewrite lookup_insert_ne by done. split; [by left|]. by intros [?|[? _]].
Qed.

Lemma process_pull_None pd ud gd loc lang ovr g p :
  process_pull strptime_ok dict_repr pd ud gd loc lang ovr g None p = None.
Proof. done. Qed.

(** The pulls of one banner. *)
Lemma process_pulls_closed pd ud gd loc lang ovr g pulls st st' :
  foldl (process_pull strptime_ok dict_repr pd ud gd loc lang ovr g) (Some st) pulls
    = Some st' →
  synth_id st' = (synth_id st + Z.of_nat (length pulls))%Z ∧
  (∃ es, uigf_list st' = uigf_list st ++ es ∧
         length es = length (filter (λ p, valid_time p = true) pulls) ∧
         Forall (record_of (py_str (VInt g))) es) ∧
  (∀ k, is_Some (missing_rank st' !! k) ↔
        is_Some (missing_rank st !! k) ∨
        (k ∈ pull_id <$> pulls ∧ truthy (final_rank pd ovr k) = false)).
Proof.
  revert st. induction pulls as [|p pulls IH]; intros st.
  - cbn [foldl]. intros [= <-]. split_and!.
    + cbn. lia.
    + exists []. split_and!; [by rewrite app_nil_r|done|constructor].
    + intros k. split; [by left|]. intros [?|[Hin _]]; [done|]. by apply elem_of_nil in Hin.
  - cbn [foldl].
    destruct (process_pull strptime_ok dict_repr pd ud gd loc lang ovr g (Some st) p)
      as [st1|] eqn:E1; [|by rewrite foldl_option_None].
    intros H. apply IH in H as (Hs & (es & Hl & Hlen & Hrec) & Hm).
    apply process_pull_closed in E1 as (Hs1 & (es1 & Hl1 & Hlen1 & Hrec1) & Hm1).
    split_and!.
    + rewrite Hs, Hs1. cbn [length]. lia.
    + exists (es1 ++ es). split_and!.
      * by rewrite Hl, Hl1, app_assoc.
      * rewrite length_app, Hlen, Hlen1, filter_cons.
        destruct (valid_time p); by case_decide.
      * by apply Forall_app.
    + intros k. rewrite Hm, Hm1, fmap_cons, elem_of_cons. tauto.
Qed.

(** The codes of the banners, as the records carry them. *)
Definition banner_codes : list string := (λ b, py_str (VInt b.2)) <$> GACHA_BANNER_TYPES.

(** The banners: the pulls of the banners the export has, one banner after
    the other. *)
Lemma process_banners_closed pdata pd ud gd loc lang ovr
    (banners : list (string * Z)) st st' :
  foldl (process_banner strptime_ok dict_repr pdata pd ud gd loc lang ovr)
    (Some st) banners = Some st' →
  let pulls := banners ≫= λ banner, default [] (counters pdata !! banner.1) in
  synth_id st' = (synth_id st + Z.of_nat (length pulls))%Z ∧
  (∃ es, uigf_list st' = uigf_list st ++ es ∧
         length es = length (filter (λ p, valid_time p = true) pulls) ∧
         Forall (λ e, ∃ g, g ∈ (λ b, py_str (VInt b.2)) <$> banners ∧ record_of g e) es) ∧
  (∀ k, is_Some (missing_rank st' !! k) ↔
        is_Some (missing_rank st !! k) ∨
        (k ∈ pull_id <$> pulls ∧ truthy (final_rank pd ovr k) = false)).
Proof.
  cbn zeta. revert st. induction banners as [|b banners IH]; intros st.
  - cbn [foldl]. intros [= <-]. split_and!.
    + cbn. lia.
    + exists []. split_and!; [by rewrite app_nil_r|done|constructor].
    + intros k. split; [by left|]. intros [?|[Hin _]]; [done|]. by apply elem_of_nil in Hin.
  - cbn [foldl].
    destruct (process_banner strptime_ok dict_repr pdata pd ud gd loc lang ovr (Some st) b)
      as [st1|] eqn:E1.
    2:{ rewrite foldl_option_None; [done|]. intros x. apply process_banner_None. }
    intros H. apply IH in H as (Hs & (es & Hl & Hlen & Hrec) & Hm).
    assert (let pulls := default [] (counters pdata !! b.1) in
            synth_id st1 = (synth_id st + Z.of_nat (length pulls))%Z ∧
            (∃ es, uigf_list st1 = uigf_list st ++ es ∧
                   length es = length (filter (λ p, valid_time p = true) pulls) ∧
                   Forall (record_of (py_str (VInt b.2))) es) ∧
            (∀ k, is_Some (missing_rank st1 !! k) ↔
                  is_Some (missing_rank st !! k) ∨
                  (k ∈ pull_id <$> pulls ∧ truthy (final_rank pd ovr k) = false)))
      as (Hs1 & (es1 & Hl1 & Hlen1 & Hrec1) & Hm1).
    { unfold process_banner in E1. destruct (counters pdata !! b.1) as [pulls|].
      - by apply process_pulls_closed in E1.
      - injection E1 as <-. cbn. split_and!; [lia| |].
        + exists []. split_and!; [by rewrite app_nil_r|done|constructor].
        + intros k. split; [by left|]. intros [?|[Hin _]]; [done|].
          by apply elem_of_nil in Hin. }
    cbn zeta in *. rewrite bind_cons. split_and!.
    + rewrite Hs, Hs1, length_app. lia.
    + exists (es1 ++ es). split_and!.
      * by rewrite Hl, Hl1, app_assoc.
      * by rewrite !length_app, Hlen, Hlen1, filter_app, length_app.
      * apply Forall_app. split.
        -- eapply Forall_impl; [exact Hrec1|]. intros e He. cbn.
           exists (py_str (VInt b.2)). split; [|done]. apply list_elem_of_here.
        -- eapply Forall_impl; [exact Hrec|]. intros e (g0 & Hg & He). cbn.
           exists g0. split; [|done]. by apply list_elem_of_further.
    + intros k. rewrite Hm, Hm1, fmap_app, elem_of_app. tauto.
Qed.

(** What [run_pulls] computes before the loops. *)
Lemma run_pulls_closed fetch_json now2_ts pdata ovr uid lang st :
  run_pulls strptime_ok dict_repr fetch_json now2_ts pdata ovr = Some (uid, lang, st) →
  ∃ pd,
    build_pmoe_dict (fetch_apis_parallel fetch_json) = Some pd ∧
    uid = uid_of pdata ∧
    infer_lang_from_locale (py_or (get (scalars pdata) "locale") (VStr "en")) = Some lang ∧
    synth_id st = (seed_of uid now2_ts + Z.of_nat (length (all_pulls pdata)))%Z ∧
    (∃ es, uigf_list st = es ∧
           length es = length (filter (λ p, valid_time p = true) (all_pulls pdata)) ∧
           Forall (λ e, ∃ g, g ∈ banner_codes ∧ record_of g e) es) ∧
    (∀ k, is_Some (missing_rank st !! k) ↔
          k ∈ pull_id <$> all_pulls pdata ∧ truthy (final_rank pd ovr k) = false).
Proof.
  unfold run_pulls, all_pulls, banner_codes. cbn zeta.
  generalize GACHA_BANNER_TYPES. intros banners.
  destruct (build_pmoe_dict _) as [pd|]; cbn [mbind option_bind]; [|done].
  destruct (build_genshin_words_maps _) as [gd|]; cbn [mbind option_bind]; [|done].
  destruct (infer_lang_from_locale _) as [lang'|]; cbn [mbind option_bind]; [|done].
  match goal with |- context [foldl ?f ?a ?l] => destruct (foldl f a l) as [st1|] eqn:E end;
    cbn [mbind option_bind]; [|done].
  intros [= <- <- <-]. exists pd.
  apply process_banners_closed in E as (Hs & (es & Hl & Hlen & Hrec) & Hm).
  cbn [synth_id uigf_list missing_rank] in *. split_and!; try done.
  - exists es. by rewrite Hl.
  - intros k. rewrite Hm, lookup_empty. split; [|by right].
    intros [[? [=]]|?]; done.
Qed.

End first_stage.

(** ** The document of the first stage *)

Lemma banner_codes_eq : banner_codes = ["100"; "301"; "302"; "200"; "500"].
Proof. by vm_compute. Qed.

Lemma banner_code_plain g :
  g ∈ banner_codes → g ≠ "" ∧ to_uigf_gacha_type g = g.
Proof.
  rewrite banner_codes_eq. intros Hg.
  repeat (apply elem_of_cons in Hg as [->|Hg]; [by split|]).
  by apply elem_of_nil in Hg.
Qed.

Lemma omap_length_all {A B} (f : A → option B) (l : list A) :
  Forall (λ x, is_Some (f x)) l → length (omap f l) = length l.
Proof.
  induction 1 as [|x l [y Hy] _ IH]; [done|]. cbn [omap list_omap].
  rewrite Hy. cbn. by rewrite IH.
Qed.

Lemma v3_info_fields (uid lang ts tm app ver uv tz : pyval) :
  let info : obj :=
    {[ "uid" := uid; "lang" := lang; "export_timestamp" := ts;
       "export_time" := tm; "export_app" := app; "export_app_version" := ver;
       "uigf_version" := uv; "region_time_zone" := tz ]} in
  info !! "uid" = Some uid ∧ info !! "lang" = Some lang ∧
  info !! "export_timestamp" = Some ts ∧ info !! "export_app" = Some app ∧
  info !! "export_app_version" = Some ver ∧ info !! "region_time_zone" = Some tz.
Proof. cbn zeta. split_and!; by simplify_map_eq. Qed.

Section first_stage_document.
Variable strptime_ok : string → bool.
Variable dict_repr : obj → string.

(** The state of the loops at the end of a run that returned. *)
Lemma paimon_to_uigf_v3_closed fetch_json now_ts now_str now2_ts pdata app ver ovr v3 m :
  paimon_to_uigf_v3 strptime_ok dict_repr fetch_json now_ts now_str now2_ts
    pdata app ver ovr = Some (v3, m) →
  ∃ pd lang,
    build_pmoe_dict (fetch_apis_parallel fetch_json) = Some pd ∧
    infer_lang_from_locale (py_or (get (scalars pdata) "locale") (VStr "en")) = Some lang ∧
    v3_info v3 =
      {[ "uid" := VStr (uid_of pdata);
         "lang" := VStr lang;
         "export_timestamp" := VInt now_ts;
         "export_time" := VStr now_str;
         "export_app" := VStr app;
         "export_app_version" := VStr ver;
         "uigf_version" := VStr "v3.0";
         "region_time_zone" := VInt (infer_timezone_from_uid (uid_of pdata)) ]} ∧
    length (v3_list v3)
      = length (filter (λ p, valid_time strptime_ok p = true) (all_pulls pdata)) ∧
    Forall (λ e, ∃ g, g ∈ banner_codes ∧ record_of strptime_ok g e) (v3_list v3) ∧
    (∀ k, is_Some (m !! k) ↔
          k ∈ pull_id <$> all_pulls pdata ∧ truthy (final_rank pd ovr k) = false).
Proof.
  unfold paimon_to_uigf_v3.
  destruct (run_pulls _ _ _ _ _ _) as [[[uid lang] st]|] eqn:Hrun; [|done].
  cbn [mbind option_bind].
  destruct (sort_by tuple_lt sort_key (uigf_list st)) as [sorted|] eqn:Es; [|done].
  cbn [mbind option_bind]. intros [= <- <-]. cbn [v3_info v3_list].
  apply run_pulls_closed in Hrun
    as (pd & Hpd & -> & Hlang & _ & (es & Hl & Hlen & Hrec) & Hm).
  destruct (sort_by_spec tuple_lt key_le sort_key tuple_lt_true tuple_lt_false
              _ _ Es) as [Hp _].
  exists pd, lang. split_and!; try done.
  - by rewrite Hp, Hl.
  - by rewrite Hp, Hl.
Qed.

(** X13.  The list of the first stage has one record for each pull of the
    five banners whose time is not empty and is accepted by [strptime],
    and no other record. *)
Theorem first_stage_record_count
    fetch_json now_ts now_str now2_ts pdata app ver ovr v3 m :
  paimon_to_uigf_v3 strptime_ok dict_repr fetch_json now_ts now_str now2_ts
    pdata app ver ovr = Some (v3, m) →
  length (v3_list v3)
    = length (filter (λ p, valid_time strptime_ok p = true) (all_pulls pdata)).
Proof.
  intros H. by apply paimon_to_uigf_v3_closed in H as (pd & lang & _ & _ & _ & Hlen & _).
Qed.

(** X14.  Every record of the first stage carries the code of one of the
    five banners, the same in [gacha_type] and in [uigf_gacha_type]; its
    count is ["1"], its time is a string that is not empty and that
    [strptime] accepts, its identifier is a string and it has a name. *)
Theorem first_stage_records
    fetch_json now_ts now_str now2_ts pdata app ver ovr v3 m :
  paimon_to_uigf_v3 strptime_ok dict_repr fetch_json now_ts now_str now2_ts
    pdata app ver ovr = Some (v3, m) →
  Forall (λ e : obj,
            (∃ g, g ∈ ["100"; "301"; "302"; "200"; "500"] ∧
                  e !! "gacha_type" = Some (VStr g) ∧
                  e !! "uigf_gacha_type" = Some (VStr g)) ∧
            e !! "count" = Some (VStr "1") ∧
            (∃ t, e !! "time" = Some (VStr t) ∧ t ≠ "" ∧ strptime_ok t = true) ∧
            (∃ i, e !! "id" = Some (VStr i)) ∧
            is_Some (e !! "name"))
         (v3_list v3).
Proof.
  intros H. apply paimon_to_uigf_v3_closed in H as (pd & lang & _ & _ & _ & _ & Hrec & _).
  eapply Forall_impl; [exact Hrec|]. cbn beta.
  intros e (g & Hg & Hgt & Hu & Hc & Ht & Hi & Hn).
  destruct (banner_code_plain g Hg) as [_ Hplain]. rewrite Hplain in Hu.
  rewrite banner_codes_eq in Hg. split_and!; try done. by exists g.
Qed.


Lemma record_of_kept g e :
  g ∈ banner_codes → record_of strptime_ok g e → v41_kept e ∧ str_keyed e.
Proof.
  intros Hg (Hgt & _ & _ & (t & Ht & _) & (i & Hi) & _).
  destruct (banner_code_plain g Hg) as [Hne _]. split.
  - unfold v41_kept. rewrite (get_or_lookup _ _ _ _ Hgt), Ht, Hi.
    split_and!; [done|by eexists..].
  - by exists t, i.
Qed.

Lemma infer_lang_two locale lang :
  infer_lang_from_locale locale = Some lang → lang = "ja-jp" ∨ lang = "en-us".
Proof.
  unfold infer_lang_from_locale. destruct (py_lower _) as [l|]; [|done].
  cbn [mbind option_bind]. intros [= <-]. unfold LANG_MAP.
  destruct (decide (l = "ja")) as [->|]; [by left|].
  destruct (decide (l = "en")) as [->|]; [by right|].
  right. by rewrite lookup_insert_ne, lookup_singleton_ne.
Qed.

(** X16.  The second stage drops no record of a document the first stage
    made: for a target version that starts with [v4.1], [uigf_v3_to_v4x]
    returns, and its list has as many records as the list of the first
    stage. *)
Theorem second_stage_keeps_all
    fetch_json now_ts now_str now2_ts pdata app ver ovr v3 m target_version :
  paimon_to_uigf_v3 strptime_ok dict_repr fetch_json now_ts now_str now2_ts
    pdata app ver ovr = Some (v3, m) →
  startswith target_version "v4.1" = true →
  ∃ v41, uigf_v3_to_v4x v3 target_version = Some v41 ∧
         length (v41_list v41) = length (v3_list v3) ∧
         v41_list v41 ≡ₚ omap v41_entry (v3_list v3).
Proof.
  intros H Hv. apply paimon_to_uigf_v3_closed in H as (pd & lang & _ & _ & _ & _ & Hrec & _).
  unfold uigf_v3_to_v4x. rewrite Hv. unfold uigf_v3_to_v41. cbn zeta.
  assert (Forall v41_kept (v3_list v3) ∧ Forall str_keyed (v3_list v3)) as [Hk Hs].
  { split; (eapply Forall_impl; [exact Hrec|]); intros e (g & Hg & He);
      by destruct (record_of_kept g e Hg He). }
  destruct (sort_records_total (omap v41_entry (v3_list v3))) as [sorted Hsort].
  { by apply v41_entries_str_keyed. }
  rewrite Hsort. cbn [mbind option_bind]. eexists. split; [done|].
  cbn [v41_list]. destruct (sort_records_spec _ _ Hsort (v41_entries_id _)) as [Hp _].
  split; [|done]. rewrite Hp. apply omap_length_all.
  eapply Forall_impl; [exact Hk|]. intros e He. by apply v41_entry_kept.
Qed.

(** X17.  The header of the final document of a run: the account is the
    string the export gives for it, the time zone is the one
    [infer_timezone_from_uid] finds for that account, the language is
    [ja-jp] or [en-us], and the application, its version, the time stamp
    and the target version are the ones given. *)
Theorem final_document_header
    fetch_json now_ts now_str now2_ts pdata app ver ovr v3 m target_version v41 :
  paimon_to_uigf_v3 strptime_ok dict_repr fetch_json now_ts now_str now2_ts
    pdata app ver ovr = Some (v3, m) →
  uigf_v3_to_v4x v3 target_version = Some v41 →
  v41_uid v41 = VStr (uid_of pdata) ∧
  v41_timezone v41 = VInt (infer_timezone_from_uid (uid_of pdata)) ∧
  (v41_lang v41 = VStr "ja-jp" ∨ v41_lang v41 = VStr "en-us") ∧
  v41_info v41 =
    {[ "export_timestamp" := VInt now_ts;
       "export_app" := VStr app;
       "export_app_version" := VStr ver;
       "version" := VStr target_version ]}.
Proof.
  intros H. apply paimon_to_uigf_v3_closed in H as (pd & lang & _ & Hlang & Hinfo & _).
  unfold uigf_v3_to_v4x. destruct (startswith target_version "v4.1"); [|done].
  unfold uigf_v3_to_v41. cbn zeta.
  destruct (sort_by _ _ _) as [sorted|]; [|done]. cbn [mbind option_bind].
  intros [= <-]. cbn [v41_uid v41_timezone v41_lang v41_info]. rewrite Hinfo.
  apply infer_lang_two in Hlang. unfold get_or, get.
  destruct (v3_info_fields (VStr (uid_of pdata)) (VStr lang) (VInt now_ts)
              (VStr now_str) (VStr app) (VStr ver) (VStr "v3.0")
              (VInt (infer_timezone_from_uid (uid_of pdata))))
    as (-> & -> & -> & -> & -> & ->).
  cbn [default from_option id]. split_and!; [done|done| |done].
  destruct Hlang as [->| ->]; [by left|by right].
Qed.

End first_stage_document.

Lemma first_stage_record_count_witness :
  ∃ v3 m,
    sample_run = Some (v3, m) ∧
    length (v3_list v3)
      = length (filter (λ p, valid_time sample_strptime_ok p = true)
                       (all_pulls sample_export)).
Proof.
  pose proof sample_run_returns as Hret.
  destruct sample_run as [[v3 m]|] eqn:E; [clear Hret|discriminate Hret].
  unfold sample_run in E.
  exists v3, m. split; [done|].
  exact (first_stage_record_count sample_strptime_ok sample_dict_repr sample_fetch
           1700000000 "2023-11-14 22:13:20" 1700000000
           sample_export "PMOE-Local-Converter" "1.0.2" ∅ v3 m E).
Defined.

Lemma first_stage_records_witness :
  ∃ v3 m,
    sample_run = Some (v3, m) ∧
    Forall (λ e : obj,
              (∃ g, g ∈ ["100"; "301"; "302"; "200"; "500"] ∧
                    e !! "gacha_type" = Some (VStr g) ∧
                    e !! "uigf_gacha_type" = Some (VStr g)) ∧
              e !! "count" = Some (VStr "1") ∧
              (∃ t, e !! "time" = Some (VStr t) ∧ t ≠ "" ∧
                    sample_strptime_ok t = true) ∧
              (∃ i, e !! "id" = Some (VStr i)) ∧
              is_Some (e !! "name"))
           (v3_list v3).
Proof.
  pose proof sample_run_returns as Hret.
  destruct sample_run as [[v3 m]|] eqn:E; [clear Hret|discriminate Hret].
  unfold sample_run in E.
  exists v3, m. split; [done|].
  exact (first_stage_records sample_strptime_ok sample_dict_repr sample_fetch
           1700000000 "2023-11-14 22:13:20" 1700000000
           sample_export "PMOE-Local-Converter" "1.0.2" ∅ v3 m E).
Defined.


Lemma second_stage_keeps_all_witness :
  ∃ v3 m v41,
    sample_run = Some (v3, m) ∧
    uigf_v3_to_v4x v3 "v4.1" = Some v41 ∧
    length (v41_list v41) = length (v3_list v3) ∧
    v41_list v41 ≡ₚ omap v41_entry (v3_list v3).
Proof.
  pose proof sample_run_returns as Hret.
  destruct sample_run as [[v3 m]|] eqn:E; [clear Hret|discriminate Hret].
  unfold sample_run in E.
  destruct (second_stage_keeps_all sample_strptime_ok sample_dict_repr sample_fetch
              1700000000 "2023-11-14 22:13:20" 1700000000
              sample_export "PMOE-Local-Converter" "1.0.2" ∅ v3 m "v4.1" E eq_refl)
    as (v41 & H1 & H2 & H3).
  exists v3, m, v41. exact (conj eq_refl (conj H1 (conj H2 H3))).
Defined.

(** The two stages on the sample export. *)
Definition sample_final : option (uigf_v3_doc * uigf_v41_doc) :=
  r ← sample_run; v41 ← uigf_v3_to_v4x r.1 "v4.1"; Some (r.1, v41).

Lemma sample_final_returns : returned sample_final = true.
Proof. by vm_compute. Qed.

Lemma final_document_header_witness :
  ∃ v3 m v41,
    sample_run = Some (v3, m) ∧
    uigf_v3_to_v4x v3 "v4.1" = Some v41 ∧
    v41_uid v41 = VStr (uid_of sample_export) ∧
    v41_timezone v41 = VInt (infer_timezone_from_uid (uid_of sample_export)) ∧
    (v41_lang v41 = VStr "ja-jp" ∨ v41_lang v41 = VStr "en-us") ∧
    v41_info v41 =
      {[ "export_timestamp" := VInt 1700000000;
         "export_app" := VStr "PMOE-Local-Converter";
         "export_app_version" := VStr "1.0.2";
         "version" := VStr "v4.1" ]}.
Proof.
  pose proof sample_final_returns as Hret. unfold sample_final in Hret.
  destruct sample_run as [[v3 m]|] eqn:E; [|discriminate Hret].
  cbn [mbind option_bind fst] in Hret.
  destruct (uigf_v3_to_v4x v3 "v4.1") as [v41|] eqn:E2; [clear Hret|discriminate Hret].
  unfold sample_run in E.
  exists v3, m, v41.
  exact (conj eq_refl (conj E2
    (final_document_header sample_strptime_ok sample_dict_repr sample_fetch
       1700000000 "2023-11-14 22:13:20" 1700000000
       sample_export "PMOE-Local-Converter" "1.0.2" ∅ v3 m "v4.1" v41 E E2))).
Defined.

(** * Further properties of the translation tables *)

(** A number other than zero: the argument on which [normalize_en_key]
    raises. *)
Definition nonzero_number (v : pyval) : Prop := ∃ z, v = VInt z ∧ z ≠ 0%Z.

(** A word [build_genshin_words_maps] can file: when it has a Japanese
    text, its English text is no number other than zero. *)
Definition word_ok (b : blob) : Prop :=
  match b with
  | BVal _ => True
  | BObj w => is_Some (w !! "ja") → ∀ en, w !! "en" = Some en → ¬ nonzero_number en
  end.

Lemma normalize_en_key_None v : normalize_en_key v = None ↔ nonzero_number v.
Proof.
  unfold normalize_en_key, nonzero_number. destruct v as [|z|s]; cbn [truthy].
  - cbn. split; [done|]. by intros (z & [=] & _).
  - destruct (Z.eqb_spec z 0) as [->|Hz]; cbn [negb].
    + split; [done|]. by intros (z & [= <-] & Hz).
    + split; [|done]. intros _. by exists z.
  - split; [by destruct (negb _)|]. by intros (z & [=] & _).
Qed.

Lemma add_word_None b : add_word None b = None.
Proof. done. Qed.

Lemma add_word_is_Some t b : is_Some (add_word (Some t) b) ↔ word_ok b.
Proof.
  unfold add_word, word_ok. cbn [mbind option_bind]. destruct b as [v|w].
  - split; [done|by eexists].
  - destruct (w !! "ja") as [ja|]; [|split; [by intros _ [??]|by eexists]].
    destruct (w !! "en") as [en|]; cbn [mbind option_bind].
    + destruct (normalize_en_key en) as [k|] eqn:Hk; cbn [mbind option_bind].
      * split; [|by eexists]. intros _ _ en' [= <-] Hbad.
        apply normalize_en_key_None in Hbad. congruence.
      * split; [by intros [??]|]. intros H. destruct (H (ltac:(by eexists)) en eq_refl).
        by apply normalize_en_key_None.
    + split; [by intros _ _ ? [=]|by eexists].
Qed.

Lemma add_words_is_Some ws t :
  is_Some (foldl add_word (Some t) ws) ↔ Forall word_ok ws.
Proof.
  revert t. induction ws as [|b ws IH]; intros t; cbn [foldl].
  - split; [constructor|by eexists].
  - rewrite Forall_cons, <-(add_word_is_Some t b).
    destruct (add_word (Some t) b) as [t1|].
    + rewrite IH. split; [by split; [eexists|]|by intros [_ ?]].
    + rewrite foldl_option_None by apply add_word_None.
      split; [by intros [??]|]. by intros [[??] _].
Qed.

(** X18.  [build_genshin_words_maps] returns exactly when no word that
    has a Japanese text has a number other than zero for its English text;
    on a document that is not a list it returns the three empty tables. *)
Theorem build_genshin_words_maps_returns gd_data :
  match gd_data with
  | DArr ws => is_Some (build_genshin_words_maps gd_data) ↔ Forall word_ok ws
  | _ => build_genshin_words_maps gd_data
         = Some {[ "en_to_ja" := ∅; "en_to_ja_norm" := ∅; "zh_to_ja" := ∅ ]}
  end.
Proof.
  destruct gd_data as [items|ws|v]; [done| |done].
  unfold build_genshin_words_maps. rewrite <-(add_words_is_Some ws (GdTables ∅ ∅ ∅)).
  by rewrite fmap_is_Some.
Qed.

(** ** The last word wins *)

(** The word [b] does not file the English text [en]. *)
Definition other_word (en : pyval) (b : blob) : Prop :=
  match b with
  | BVal _ => True
  | BObj w => is_Some (w !! "ja") → w !! "en" ≠ Some en
  end.

Lemma add_word_other en t b t' :
  other_word en b → add_word (Some t) b = Some t' →
  t_en_to_ja t' !! en = t_en_to_ja t !! en.
Proof.
  unfold add_word, other_word. cbn [mbind option_bind]. destruct b as [v|w].
  - by intros _ [= <-].
  - destruct (w !! "ja") as [ja|]; [|by intros _ [= <-]].
    intros Hne. specialize (Hne (ltac:(by eexists))).
    destruct (w !! "en") as [en'|]; cbn [mbind option_bind].
    + destruct (normalize_en_key en') as [k|]; cbn [mbind option_bind]; [|done].
      intros [= <-]. destruct (w !! "zhCN"); cbn [t_en_to_ja];
        rewrite lookup_insert_ne; congruence.
    + intros [= <-]. by destruct (w !! "zhCN").
Qed.

Lemma add_words_other en ws t t' :
  Forall (other_word en) ws → foldl add_word (Some t) ws = Some t' →
  t_en_to_ja t' !! en = t_en_to_ja t !! en.
Proof.
  intros Hall. revert t. induction Hall as [|b ws Hb _ IH]; intros t; cbn [foldl].
  - by intros [= <-].
  - destruct (add_word (Some t) b) as [t1|] eqn:E1.
    + intros H. rewrite (IH _ H). by eapply add_word_other.
    + by rewrite foldl_option_None by apply add_word_None.
Qed.

Lemma add_word_files en ja (w : obj) t t' :
  w !! "ja" = Some ja → w !! "en" = Some en →
  add_word (Some t) (BObj w) = Some t' →
  t_en_to_ja t' !! en = Some ja.
Proof.
  unfold add_word. cbn [mbind option_bind]. intros -> ->.
  destruct (normalize_en_key en) as [k|]; cbn [mbind option_bind]; [|done].
  intros [= <-]. destruct (w !! "zhCN"); cbn [t_en_to_ja]; by rewrite lookup_insert_eq.
Qed.

(** X19.  In the table of exact English texts the last word wins: when the
    function returns, a text maps to the Japanese text of the last word of
    the list that has that English text and a Japanese text. *)
Theorem en_to_ja_last_wins before (w : obj) after en ja maps :
  build_genshin_words_maps (DArr (before ++ BObj w :: after)) = Some maps →
  w !! "ja" = Some ja → w !! "en" = Some en →
  Forall (other_word en) after →
  ∃ en_to_ja, maps !! "en_to_ja" = Some en_to_ja ∧ en_to_ja !! en = Some ja.
Proof.
  unfold build_genshin_words_maps.
  rewrite foldl_app. cbn [foldl]. intros H Hja Hen Hafter.
  destruct (foldl add_word (Some (GdTables ∅ ∅ ∅)) before) as [t0|].
  2:{ rewrite add_word_None, foldl_option_None in H by apply add_word_None. done. }
  destruct (add_word (Some t0) (BObj w)) as [t1|] eqn:E1.
  2:{ rewrite foldl_option_None in H by apply add_word_None. done. }
  destruct (foldl add_word (Some t1) after) as [t2|] eqn:E2; [|done].
  cbn in H. injection H as <-. exists (t_en_to_ja t2). split; [done|].
  rewrite (add_words_other en after t1 t2 Hafter E2). by eapply add_word_files.
Qed.

Lemma en_to_ja_last_wins_witness :
  ∃ maps en_to_ja,
    build_genshin_words_maps
      (DArr [ BObj {[ "en" := VStr "Mika"; "ja" := VStr "A" ]};
              BObj {[ "en" := VStr "Mika"; "ja" := VStr "B" ]};
              BObj {[ "en" := VStr "Mika" ]} ]) = Some maps ∧
    maps !! "en_to_ja" = Some en_to_ja ∧ en_to_ja !! VStr "Mika" = Some (VStr "B").
Proof.
  pose proof (eq_refl : returned (build_genshin_words_maps
      (DArr [ BObj {[ "en" := VStr "Mika"; "ja" := VStr "A" ]};
              BObj {[ "en" := VStr "Mika"; "ja" := VStr "B" ]};
              BObj {[ "en" := VStr "Mika" ]} ])) = true) as Hret.
  destruct (build_genshin_words_maps _) as [maps|] eqn:E; [clear Hret|discriminate Hret].
  destruct (en_to_ja_last_wins
              [ BObj {[ "en" := VStr "Mika"; "ja" := VStr "A" ]} ]
              {[ "en" := VStr "Mika"; "ja" := VStr "B" ]}
              [ BObj {[ "en" := VStr "Mika" ]} ]
              (VStr "Mika") (VStr "B") maps E) as (t & H1 & H2).
  - reflexivity.
  - reflexivity.
  - constructor; [|constructor]. intros [x Hx]. discriminate Hx.
  - exists maps, t. exact (conj eq_refl (conj H1 H2)).
Defined.

(** * Further properties of the normalized keys *)

(** ** Characters *)

Ltac each_ascii c :=
  destruct c as [[] [] [] [] [] [] [] []]; vm_compute; try reflexivity; try discriminate.

Lemma lower_char_idemp c : lower_char (lower_char c) = lower_char c.
Proof. each_ascii c. Qed.

Lemma lower_char_space c : is_space (lower_char c) = is_space c.
Proof. each_ascii c. Qed.

Lemma lower_char_blank c :
  Ascii.eqb (lower_char c) " " = Ascii.eqb c " ".
Proof. each_ascii c. Qed.

Lemma lower_char_underscore c :
  Ascii.eqb (lower_char c) "_" = Ascii.eqb c "_".
Proof. each_ascii c. Qed.

Lemma underscore_not_space c : Ascii.eqb c "_" = true → is_space c = false.
Proof. each_ascii c. Qed.

(** ** Shapes of strings *)

(** Every white space character of [s] is a blank, no two blanks are
    adjacent, and [s] does not start with a blank when [after_blank]. *)
Fixpoint collapsed (after_blank : bool) (s : string) : bool :=
  match s with
  | EmptyString => true
  | String c s' =>
      if is_space c
      then Ascii.eqb c " " && negb after_blank && collapsed true s'
      else collapsed false s'
  end.

(** [s] does not end with a white space character. *)
Fixpoint no_trailing (s : string) : bool :=
  match s with
  | EmptyString => true
  | String c s' =>
      if String.eqb s' "" then negb (is_space c) else no_trailing s'
  end.

Fixpoint no_underscore (s : string) : bool :=
  match s with
  | EmptyString => true
  | String c s' => negb (Ascii.eqb c "_") && no_underscore s'
  end.

Lemma collapsed_weaken b s : collapsed b s = true → collapsed false s = true.
Proof.
  destruct s as [|c s]; [done|]. cbn [collapsed]. destruct (is_space c); [|done].
  destruct b; [|done]. by rewrite andb_false_r.
Qed.

(** *** What each pass of [normalize_en_key] makes *)

Lemma replace_underscore_clean s : no_underscore (replace_underscore s) = true.
Proof.
  unfold replace_underscore. induction s as [|c s IH]; [done|]. cbn [str_map no_underscore].
  rewrite IH, andb_true_r. by destruct (Ascii.eqb c "_") eqn:E; [|rewrite E].
Qed.

Lemma collapse_ws_collapsed b s : collapsed b (collapse_ws b s) = true.
Proof.
  revert b. induction s as [|c s IH]; intros b; [done|]. cbn [collapse_ws].
  destruct (is_space c) eqn:Ec.
  - destruct b; [apply IH|]. cbn [collapsed].
    change (is_space " ") with true. cbn. apply IH.
  - cbn [collapsed]. rewrite Ec. apply IH.
Qed.

Lemma collapse_ws_clean b s :
  no_underscore s = true → no_underscore (collapse_ws b s) = true.
Proof.
  revert b. induction s as [|c s IH]; intros b; [done|]. cbn [collapse_ws no_underscore].
  intros [Hc Hs]%andb_true_iff. destruct (is_space c).
  - destruct b; [by apply IH|]. cbn [no_underscore]. by rewrite IH.
  - cbn [no_underscore]. by rewrite Hc, IH.
Qed.

Lemma lstrip_collapsed b s : collapsed b s = true → collapsed true (lstrip s) = true.
Proof.
  revert b. induction s as [|c s IH]; intros b; [done|]. cbn [collapsed lstrip].
  destruct (is_space c) eqn:Ec.
  - intros [_ Hs]%andb_true_iff. by apply (IH true).
  - intros Hs. cbn [collapsed]. by rewrite Ec.
Qed.

Lemma lstrip_clean s : no_underscore s = true → no_underscore (lstrip s) = true.
Proof.
  induction s as [|c s IH]; [done|]. cbn [lstrip]. destruct (is_space c); [|done].
  cbn [no_underscore]. intros [_ Hs]%andb_true_iff. by apply IH.
Qed.

Lemma rstrip_collapsed b s : collapsed b s = true → collapsed b (rstrip s) = true.
Proof.
  revert b. induction s as [|c s IH]; intros b; [done|]. cbn [collapsed rstrip].
  destruct (is_space c) eqn:Ec; cbn [andb].
  - intros [Hc Hs]%andb_true_iff. destruct (String.eqb (rstrip s) ""); [done|].
    cbn [collapsed]. by rewrite Ec, Hc, (IH true).
  - intros Hs. cbn [collapsed]. by rewrite Ec, (IH false).
Qed.

Lemma rstrip_no_trailing s : no_trailing (rstrip s) = true.
Proof.
  induction s as [|c s IH]; [done|]. cbn [rstrip].
  destruct (String.eqb (rstrip s) "") eqn:Er.
  - destruct (is_space c) eqn:Ec; [done|]. cbn [andb no_trailing]. by rewrite Er, Ec.
  - rewrite andb_false_r. cbn [no_trailing]. by rewrite Er.
Qed.

Lemma rstrip_clean s : no_underscore s = true → no_underscore (rstrip s) = true.
Proof.
  induction s as [|c s IH]; [done|]. cbn [rstrip no_underscore].
  intros [Hc Hs]%andb_true_iff. destruct (_ && _); [done|].
  cbn [no_underscore]. by rewrite Hc, IH.
Qed.

Lemma lower_collapsed b s : collapsed b (lower s) = collapsed b s.
Proof.
  unfold lower. revert b. induction s as [|c s IH]; intros b; [done|].
  cbn [str_map collapsed]. by rewrite lower_char_space, lower_char_blank, !IH.
Qed.

Lemma lower_empty s : String.eqb (lower s) "" = String.eqb s "".
Proof. by destruct s. Qed.

Lemma lower_no_trailing s : no_trailing (lower s) = no_trailing s.
Proof.
  induction s as [|c s IH]; [done|].
  change (lower (String c s)) with (String (lower_char c) (lower s)).
  cbn [no_trailing]. by rewrite lower_empty, lower_char_space, IH.
Qed.

Lemma lower_clean s : no_underscore (lower s) = no_underscore s.
Proof.
  unfold lower. induction s as [|c s IH]; [done|]. cbn [str_map no_underscore].
  by rewrite lower_char_underscore, IH.
Qed.

Lemma lower_idemp s : lower (lower s) = lower s.
Proof.
  unfold lower. induction s as [|c s IH]; [done|]. cbn [str_map].
  by rewrite lower_char_idemp, IH.
Qed.

(** *** The passes on a string that has the shape already *)

Lemma replace_underscore_id s : no_underscore s = true → replace_underscore s = s.
Proof.
  unfold replace_underscore. induction s as [|c s IH]; [done|].
  cbn [str_map no_underscore]. intros [Hc Hs]%andb_true_iff.
  apply negb_true_iff in Hc. by rewrite Hc, IH.
Qed.

Lemma collapse_ws_id b s : collapsed b s = true → collapse_ws b s = s.
Proof.
  revert b. induction s as [|c s IH]; intros b; [done|]. cbn [collapsed collapse_ws].
  destruct (is_space c).
  - intros [[Hc Hb]%andb_true_iff Hs]%andb_true_iff.
    apply negb_true_iff in Hb as ->. apply Ascii.eqb_eq in Hc as ->. by rewrite IH.
  - intros Hs. by rewrite IH.
Qed.

Lemma lstrip_id s : collapsed true s = true → lstrip s = s.
Proof.
  destruct s as [|c s]; [done|]. cbn [collapsed lstrip]. destruct (is_space c); [|done].
  by rewrite andb_false_r.
Qed.

Lemma rstrip_id s : no_trailing s = true → rstrip s = s.
Proof.
  induction s as [|c s IH]; [done|]. cbn [no_trailing rstrip].
  destruct (String.eqb s "") eqn:Es.
  - apply String.eqb_eq in Es as ->. intros Hc%negb_true_iff. cbn. by rewrite Hc.
  - intros Hs. rewrite (IH Hs), Es. by rewrite andb_false_r.
Qed.

(** The shape of a normalized key. *)
Lemma norm_text_shape s :
  let k := norm_text s in
  collapsed true k = true ∧ no_trailing k = true ∧
  no_underscore k = true ∧ lower k = k.
Proof.
  unfold norm_text, strip. cbn zeta. split_and!.
  - rewrite lower_collapsed. apply rstrip_collapsed.
    apply (lstrip_collapsed false), collapse_ws_collapsed.
  - rewrite lower_no_trailing. apply rstrip_no_trailing.
  - rewrite lower_clean. apply rstrip_clean, lstrip_clean, collapse_ws_clean,
      replace_underscore_clean.
  - apply lower_idemp.
Qed.

Lemma norm_text_of_shape k :
  collapsed true k = true → no_trailing k = true →
  no_underscore k = true → lower k = k → norm_text k = k.
Proof.
  intros Hc Ht Hu Hl. unfold norm_text, strip.
  rewrite replace_underscore_id by done.
  rewrite collapse_ws_id by by eapply collapsed_weaken.
  by rewrite lstrip_id, rstrip_id.
Qed.

(** A key that [normalize_en_key] returns has the shape of a key. *)
Lemma normalize_en_key_fixed v k : normalize_en_key v = Some k → norm_text k = k.
Proof.
  unfold normalize_en_key. destruct (negb (truthy v)).
  - by intros [= <-].
  - destruct v as [|z|s]; [done..|]. intros [= <-].
    destruct (norm_text_shape s) as (Hc & Ht & Hu & Hl). by apply norm_text_of_shape.
Qed.

(** X20.  A key [normalize_en_key] returns is its own key: normalizing
    twice gives what normalizing once gives. *)
Theorem normalize_en_key_idemp v k :
  normalize_en_key v = Some k → normalize_en_key (VStr k) = Some k.
Proof.
  intros Hk. rewrite normalize_en_key_str. f_equal. by eapply normalize_en_key_fixed.
Qed.

Lemma normalize_en_key_idemp_witness :
  normalize_en_key (VStr "aqua simulacra") = Some "aqua simulacra".
Proof.
  apply (normalize_en_key_idemp (VStr "  Aqua__Simulacra ") "aqua simulacra").
  reflexivity.
Defined.

(** ** The name derived from an identifier *)

Lemma upper_char_space c : is_space (upper_char c) = is_space c.
Proof. each_ascii c. Qed.

Lemma upper_char_underscore c :
  Ascii.eqb (upper_char c) "_" = Ascii.eqb c "_".
Proof. each_ascii c. Qed.

Lemma lower_upper_char c : lower_char (upper_char c) = lower_char c.
Proof. each_ascii c. Qed.

(** The text [s] with the first character of each word in upper case and
    the others in lower case; [start] tells that a word starts. *)
Fixpoint cap_words (start : bool) (s : string) : string :=
  match s with
  | EmptyString => EmptyString
  | String c s' =>
      if is_space c then String c (cap_words true s')
      else String (if start then upper_char c else lower_char c) (cap_words false s')
  end.

Fixpoint no_space (s : string) : bool :=
  match s with
  | EmptyString => true
  | String c s' => negb (is_space c) && no_space s'
  end.

Lemma string_app_cons x (a b : string) : String x a +:+ b = String x (a +:+ b).
Proof. reflexivity. Qed.

Lemma string_app_assoc (a b c : string) : (a +:+ b) +:+ c = a +:+ (b +:+ c).
Proof.
  induction a as [|x a IH]; [done|]. by rewrite !string_app_cons, IH.
Qed.

Lemma string_app_empty (a : string) : a +:+ "" = a.
Proof. induction a as [|x a IH]; [done|]. by rewrite string_app_cons, IH. Qed.

Lemma no_space_snoc w c :
  no_space w = true → is_space c = false → no_space (w +:+ String c "") = true.
Proof.
  intros Hw Hc. induction w as [|x w IH].
  - change ("" +:+ String c "") with (String c ""). cbn [no_space]. by rewrite Hc.
  - rewrite string_app_cons. cbn [no_space] in *.
    apply andb_true_iff in Hw as [Hx Hw]. by rewrite Hx, IH.
Qed.

Lemma cap_words_lower w : no_space w = true → cap_words false w = lower w.
Proof.
  induction w as [|c w IH]; [done|]. cbn [no_space cap_words].
  intros [Hc%negb_true_iff Hw]%andb_true_iff. rewrite Hc, IH by done. done.
Qed.

Lemma cap_words_capitalize w : no_space w = true → cap_words true w = capitalize w.
Proof.
  destruct w as [|c w]; [done|]. cbn [no_space cap_words capitalize].
  intros [Hc%negb_true_iff Hw]%andb_true_iff. by rewrite Hc, cap_words_lower.
Qed.

Lemma cap_words_app b w c s :
  no_space w = true → is_space c = true →
  cap_words b (w +:+ String c s) = cap_words b w +:+ String c (cap_words true s).
Proof.
  intros Hw Hc. revert b. induction w as [|x w IH]; intros b.
  - change ("" +:+ String c s) with (String c s). cbn [cap_words]. by rewrite Hc.
  - cbn [no_space] in Hw. apply andb_true_iff in Hw as [Hx%negb_true_iff Hw].
    rewrite string_app_cons. cbn [cap_words]. by rewrite Hx, string_app_cons, IH.
Qed.

Lemma cap_words_empty b s : cap_words b s = "" → s = "".
Proof. destruct s as [|c s]; [done|]. cbn. by destruct (is_space c). Qed.

(** [split] and [join] on a text of the shape of a key: the words in
    capitals, joined by blanks, are the text with each word in capitals. *)
Lemma split_go_cap_words s cur :
  no_space cur = true →
  collapsed (String.eqb cur "") s = true →
  no_trailing s = true →
  String.concat " " (capitalize <$> split_go cur s) = cap_words true (cur +:+ s).
Proof.
  revert cur. induction s as [|c s IH]; intros cur Hcur Hc Ht.
  - cbn [split_go]. rewrite string_app_empty. destruct (String.eqb cur "") eqn:E.
    + by apply String.eqb_eq in E as ->.
    + cbn. by rewrite cap_words_capitalize.
  - cbn [split_go collapsed no_trailing] in *. destruct (is_space c) eqn:Ec.
    + apply andb_true_iff in Hc as [[Hblank Hne]%andb_true_iff Hc].
      apply Ascii.eqb_eq in Hblank as ->. apply negb_true_iff in Hne. rewrite Hne.
      destruct (String.eqb s "") eqn:Es; [done|].
      specialize (IH "" eq_refl Hc Ht). change ("" +:+ s) with s in IH.
      rewrite cap_words_app by done. rewrite <-IH, fmap_cons.
      destruct (capitalize <$> split_go "" s) as [|x xs] eqn:Ex.
      * cbn in IH. symmetry in IH. apply cap_words_empty in IH as ->. done.
      * cbn [String.concat]. by rewrite cap_words_capitalize.
    + replace (cur +:+ String c s) with ((cur +:+ String c "") +:+ s)
        by by rewrite string_app_assoc.
      apply IH.
      * by apply no_space_snoc.
      * destruct cur; apply Hc.
      * destruct (String.eqb s "") eqn:Es; [|done]. by apply String.eqb_eq in Es as ->.
Qed.

Lemma cap_words_collapsed b b' s : collapsed b' (cap_words b s) = collapsed b' s.
Proof.
  revert b b'. induction s as [|c s IH]; intros b b'; [done|]. cbn [cap_words].
  destruct (is_space c) eqn:Ec; cbn [collapsed].
  - by rewrite Ec, IH.
  - destruct b; by rewrite ?upper_char_space, ?lower_char_space, Ec, IH.
Qed.

Lemma cap_words_is_empty b s : String.eqb (cap_words b s) "" = String.eqb s "".
Proof. destruct s as [|c s]; [done|]. cbn. by destruct (is_space c). Qed.

Lemma cap_words_no_trailing b s : no_trailing (cap_words b s) = no_trailing s.
Proof.
  revert b. induction s as [|c s IH]; intros b; [done|]. cbn [cap_words].
  destruct (is_space c) eqn:Ec; cbn [no_trailing]; rewrite cap_words_is_empty, IH.
  - by rewrite Ec.
  - destruct b; by rewrite ?upper_char_space, ?lower_char_space, Ec.
Qed.

Lemma cap_words_clean b s : no_underscore (cap_words b s) = no_underscore s.
Proof.
  revert b. induction s as [|c s IH]; intros b; [done|]. cbn [cap_words].
  destruct (is_space c) eqn:Ec; cbn [no_underscore]; rewrite IH; [done|].
  destruct b; by rewrite ?upper_char_underscore, ?lower_char_underscore.
Qed.

Lemma cap_words_lowered b s : lower (cap_words b s) = lower s.
Proof.
  unfold lower. revert b. induction s as [|c s IH]; intros b; [done|]. cbn [cap_words].
  destruct (is_space c); cbn [str_map]; rewrite IH; [done|].
  destruct b; by rewrite ?lower_upper_char, ?lower_char_idemp.
Qed.

(** X21.  The name [english_from_pmoe_id] derives from an identifier
    written in ASCII has the normalized key of the identifier.  (Beyond
    ASCII [str.capitalize] can change the letters of a word, which
    [capitalize] does not follow.) *)
Theorem derived_name_key pmoe_id derived :
  isascii pmoe_id = true →
  english_from_pmoe_id (VStr pmoe_id) = Some derived →
  normalize_en_key (VStr derived) = normalize_en_key (VStr pmoe_id).
Proof.
  intros _. unfold english_from_pmoe_id. rewrite !normalize_en_key_str.
  cbn [mbind option_bind]. intros [= <-]. f_equal.
  destruct (norm_text_shape pmoe_id) as (Hc & Ht & Hu & Hl). cbn zeta in *.
  unfold split. rewrite split_go_cap_words by done.
  change ("" +:+ norm_text pmoe_id) with (norm_text pmoe_id).
  change (truthy (VStr (norm_text pmoe_id)))
    with (negb (String.eqb (norm_text pmoe_id) "")).
  destruct (String.eqb_spec (norm_text pmoe_id) "") as [Hk|Hk]; cbn [negb].
  - by rewrite Hk.
  - unfold norm_text at 1. unfold strip.
    rewrite replace_underscore_id by by rewrite cap_words_clean.
    rewrite collapse_ws_id
      by (rewrite cap_words_collapsed; by eapply collapsed_weaken).
    rewrite lstrip_id by by rewrite cap_words_collapsed.
    rewrite rstrip_id by by rewrite cap_words_no_trailing.
    by rewrite cap_words_lowered.
Qed.

Lemma derived_name_key_witness :
  normalize_en_key (VStr "Aqua Simulacra") = normalize_en_key (VStr "aqua_simulacra").
Proof.
  apply (derived_name_key "aqua_simulacra" "Aqua Simulacra"); reflexivity.
Defined.

(** ** The keys of the normalized table *)

(** A key of [en_to_ja_norm]: a string that is not empty and is its own
    normalized key. *)
Definition normalized_key (k : pyval) : Prop :=
  ∃ s, k = VStr s ∧ s ≠ "" ∧ normalize_en_key k = Some s.

Definition normalized_keys (t : gmap pyval pyval) : Prop :=
  ∀ k, is_Some (t !! k) → normalized_key k.

Lemma add_word_normalized_keys t b t' :
  normalized_keys (t_en_to_ja_norm t) → add_word (Some t) b = Some t' →
  normalized_keys (t_en_to_ja_norm t').
Proof.
  intros Ht. unfold add_word. cbn [mbind option_bind]. destruct b as [v|w].
  - by intros [= <-].
  - destruct (w !! "ja") as [ja|]; [|by intros [= <-]].
    destruct (w !! "en") as [en|]; cbn [mbind option_bind].
    + destruct (normalize_en_key en) as [key|] eqn:Hkey; cbn [mbind option_bind]; [|done].
      intros [= <-].
      assert (normalized_keys
                (if truthy (VStr key) then <[VStr key := ja]> (t_en_to_ja_norm t)
                 else t_en_to_ja_norm t)) as Hn.
      { destruct (truthy (VStr key)) eqn:Hk; [|done]. intros k.
        destruct (decide (VStr key = k)) as [<-|Hne].
        - intros _. exists key. split_and!; [done|by apply truthy_str|].
          rewrite normalize_en_key_str. f_equal. by eapply normalize_en_key_fixed.
        - rewrite lookup_insert_ne by done. apply Ht. }
      by destruct (w !! "zhCN").
    + intros [= <-]. by destruct (w !! "zhCN").
Qed.

(** X22.  Every key of the table [en_to_ja_norm] that
    [build_genshin_words_maps] returns is a string that is not empty and is
    its own normalized key, so the table is read under the keys it was
    written under. *)
Theorem en_to_ja_norm_keys gd_data maps en_to_ja_norm :
  build_genshin_words_maps gd_data = Some maps →
  maps !! "en_to_ja_norm" = Some en_to_ja_norm →
  ∀ k, is_Some (en_to_ja_norm !! k) → normalized_key k.
Proof.
  assert (∀ t, normalized_keys (t_en_to_ja_norm t) →
               gd_maps_of t !! "en_to_ja_norm" = Some en_to_ja_norm →
               normalized_keys en_to_ja_norm) as Hmaps.
  { intros t Ht. unfold gd_maps_of.
    rewrite lookup_insert_ne, lookup_insert_eq by done. by intros [= <-]. }
  assert (normalized_keys (t_en_to_ja_norm (GdTables ∅ ∅ ∅))) as Hempty.
  { intros k. cbn. rewrite lookup_empty. by intros [??]. }
  unfold build_genshin_words_maps. destruct gd_data as [items|ws|v].
  - intros [= <-]. by apply Hmaps.
  - destruct (foldl add_word (Some (GdTables ∅ ∅ ∅)) ws) as [t|] eqn:E; [|done].
    cbn. intros [= <-]. apply Hmaps.
    exact (foldl_option_inv add_word (λ s, normalized_keys (t_en_to_ja_norm s)) ws
             add_word_None add_word_normalized_keys _ _ Hempty E).
  - intros [= <-]. by apply Hmaps.
Qed.

Lemma en_to_ja_norm_keys_witness :
  ∃ maps en_to_ja_norm,
    build_genshin_words_maps
      (DArr [ BObj {[ "en" := VStr " Aqua_Simulacra"; "ja" := VStr "A" ]} ]) = Some maps ∧
    maps !! "en_to_ja_norm" = Some en_to_ja_norm ∧
    ∀ k, is_Some (en_to_ja_norm !! k) → normalized_key k.
Proof.
  pose proof (eq_refl : returned (build_genshin_words_maps
      (DArr [ BObj {[ "en" := VStr " Aqua_Simulacra"; "ja" := VStr "A" ]} ])) = true)
    as Hret.
  destruct (build_genshin_words_maps _) as [maps|] eqn:E; [clear Hret|discriminate Hret].
  pose proof (eq_refl : returned
      (build_genshin_words_maps
         (DArr [ BObj {[ "en" := VStr " Aqua_Simulacra"; "ja" := VStr "A" ]} ])
       ≫= λ m, m !! "en_to_ja_norm") = true) as Hret.
  rewrite E in Hret. cbn [mbind option_bind] in Hret.
  destruct (maps !! "en_to_ja_norm") as [t|] eqn:E2; [clear Hret|discriminate Hret].
  exists maps, t.
  exact (conj eq_refl (conj E2 (en_to_ja_norm_keys _ maps t E E2))).
Defined.
